(** * Document service of the Google Drive MCP server

    A shallow embedding of [DocumentService] (services/document.service.ts)
    together with the two [DriveAPIClient] methods it calls
    (services/drive-api.client.ts: [getDocument], [batchUpdateDocument]),
    and the properties of text extraction, index resolution and edit
    batches that hold of it.

    - JavaScript strings are sequences of UTF-16 code units ([list N]),
      so [length] is the source's [.length] and [trim] strips exactly the
      ECMAScript white space and line terminators.
    - Optional JSON fields ([T | null | undefined]) are [option T].
    - [async] methods are computations in a state-and-error monad over
      the remote backend; every client call is appended to a call log. *)

From Stdlib Require Import ZArith NArith List Lia Ascii String.
From stdpp Require Import base option list.
Import ListNotations.

Local Open Scope Z_scope.

(** ** JavaScript values *)

Module JS.

(** A string is its sequence of UTF-16 code units. *)
Definition JSString : Type := list N.

(** An ASCII literal of the source as a [JSString]. *)
Definition lit (s : string) : JSString :=
  map N_of_ascii (list_ascii_of_string s).

(** The line feed the source writes as a backslash followed by n. *)
Definition nl : JSString := [10%N].

(** [ToBoolean] on a string: only the empty string is falsy. *)
Definition truthy (s : JSString) : bool :=
  match s with
  | [] => false
  | _ :: _ => true
  end.

(** [a || d] on an optional number: [undefined], [null] and [0] are
    falsy. *)
Definition or_num (a : option Z) (d : Z) : Z :=
  match a with
  | None => d
  | Some 0 => d
  | Some n => n
  end.

(** [a || d] on an optional string. *)
Definition or_str (a : option JSString) (d : JSString) : JSString :=
  match a with
  | Some (c :: s) => c :: s
  | _ => d
  end.

(** ECMAScript [WhiteSpace] and [LineTerminator] code units, the ones
    [String.prototype.trim] removes. *)
Definition is_space (c : N) : bool :=
  ((9 <=? c) && (c <=? 13) || (c =? 32) || (c =? 160) || (c =? 5760)
   || (8192 <=? c) && (c <=? 8202) || (c =? 8232) || (c =? 8233)
   || (c =? 8239) || (c =? 8287) || (c =? 12288) || (c =? 65279))%N.

Fixpoint trimStart (s : JSString) : JSString :=
  match s with
  | [] => []
  | c :: s' => if is_space c then trimStart s' else s
  end.

Definition trimEnd (s : JSString) : JSString :=
  rev (trimStart (rev s)).

Definition trim (s : JSString) : JSString :=
  trimEnd (trimStart s).

(** [Array.prototype.join] on an array of strings. *)
Fixpoint join (sep : JSString) (l : list JSString) : JSString :=
  match l with
  | [] => []
  | [x] => x
  | x :: xs => x ++ sep ++ join sep xs
  end.

(** [s.length] as a number. *)
Definition len (s : JSString) : Z := Z.of_nat (length s).

End JS.
Import JS.

(** ** The document tree (docs_v1.Schema$Document, the fields the service
    reads) *)

Record TextRun := mkTextRun { run_content : option JSString }.

Record ParagraphElement := mkParagraphElement { textRun : option TextRun }.

Record Paragraph := mkParagraph { elements : option (list ParagraphElement) }.

Inductive StructuralElement := mkStructuralElement {
  paragraph : option Paragraph;
  table : option Table;
  endIndex : option Z }
with Table := mkTable { tableRows : option (list TableRow) }
with TableRow := mkTableRow { tableCells : option (list TableCell) }
with TableCell := mkTableCell { cell_content : option (list StructuralElement) }.

Record Body := mkBody { body_content : option (list StructuralElement) }.

Record Document := mkDocument {
  documentId : option JSString;
  title : option JSString;
  body : option Body }.

(** ** Text extraction: the loops of [readDocument] (lines 62-95)

    Each [for ... of] loop is a left fold whose accumulator is the
    variable the loop body updates. *)

(** Lines 67-71: the runs of a top-level paragraph, appended as they are. *)
Definition paragraphRuns (content : JSString) (els : list ParagraphElement)
  : JSString :=
  fold_left (fun content tr =>
    match textRun tr ≫= run_content with
    | Some c => if truthy c then content ++ c else content
    | None => content
    end) els content.

(** Lines 81-85: the runs of a paragraph inside a cell, each trimmed. *)
Definition cellRuns (cellText : JSString) (els : list ParagraphElement)
  : JSString :=
  fold_left (fun cellText tr =>
    match textRun tr ≫= run_content with
    | Some c => if truthy c then cellText ++ trim c else cellText
    | None => cellText
    end) els cellText.

(** Lines 78-87: the text of one cell. *)
Definition cellTextOf (cell : TableCell) : JSString :=
  fold_left (fun cellText cellContent =>
    match paragraph cellContent ≫= elements with
    | Some els => cellRuns cellText els
    | None => cellText
    end) (default [] (cell_content cell)) [].

(** Lines 76-89: the [cells] array of one row. *)
Definition rowCells (row : TableRow) : list JSString :=
  fold_left (fun cells cell => cells ++ [cellTextOf cell])
    (default [] (tableCells row)) [].

(** Lines 74-92: a table, appended to [content]. *)
Definition tableInto (content : JSString) (tbl : Table) : JSString :=
  let content := content ++ lit "[TABLE]" ++ nl in
  let content :=
    fold_left (fun content row =>
      content ++ join (lit " | ") (rowCells row) ++ nl)
      (default [] (tableRows tbl)) content in
  content ++ lit "[/TABLE]" ++ nl.

(** Lines 66-93: one structural element, appended to [content]. *)
Definition elementInto (content : JSString) (element : StructuralElement)
  : JSString :=
  let content :=
    match paragraph element ≫= elements with
    | Some els => paragraphRuns content els
    | None => content
    end in
  match table element with
  | Some tbl => tableInto content tbl
  | None => content
  end.

(** Lines 62-95 and 99: the [content] field of [readDocument]'s result. *)
Definition extractText (doc : Document) : JSString :=
  let content :=
    match body doc ≫= body_content with
    | Some els => fold_left elementInto els []
    | None => []
    end in
  trim content.

(** ** Index resolution *)

(** [doc.body?.content?.slice(-1)[0]?.endIndex || 1] (lines 112, 183, 209,
    242). *)
Definition endOfDocumentIndex (doc : Document) : Z :=
  or_num (((body doc ≫= body_content) ≫= last) ≫= endIndex) 1.

(** [endIndex - 1], the index the append-style methods insert at. *)
Definition appendInsertionIndex (doc : Document) : Z :=
  endOfDocumentIndex doc - 1.

(** ** Edit requests and replies (docs_v1.Schema$Request, the variants the
    service builds) *)

Inductive HeadingLevel :=
  HEADING_1 | HEADING_2 | HEADING_3 | HEADING_4 | HEADING_5 | HEADING_6.

Inductive Request :=
| InsertText (index : Z) (text : JSString)
| ReplaceAllText (text : JSString) (matchCase : bool) (replaceText : JSString)
| DeleteContentRange (startIndex endIndex : Z)
| UpdateParagraphStyle (startIndex endIndex : Z)
    (namedStyleType : HeadingLevel) (fields : JSString)
| CreateParagraphBullets (startIndex endIndex : Z) (bulletPreset : JSString).

Record ReplaceAllTextResponse :=
  mkReplaceAllTextResponse { occurrencesChanged : option Z }.

Record Reply := mkReply { replaceAllText : option ReplaceAllTextResponse }.

Record BatchUpdateDocumentResponse :=
  mkBatchUpdateDocumentResponse { replies : option (list Reply) }.

(** ** Errors (utils/error.util.ts) *)

Inductive ErrorCode := AUTH_ERROR | API_ERROR | VALIDATION_ERROR | NOT_FOUND.

Record GDriveMCPError := mkError { message : JSString; code : ErrorCode }.

Definition createAPIError (msg : JSString) : GDriveMCPError :=
  mkError msg API_ERROR.

Definition createValidationError (msg : JSString) : GDriveMCPError :=
  mkError msg VALIDATION_ERROR.

Definition createNotFoundError (resource id : JSString) : GDriveMCPError :=
  mkError (resource ++ lit " not found: " ++ id) NOT_FOUND.

(** ** The remote backend and the monad of [async] methods *)

(** The two endpoints of the Docs API the client reaches. A failure carries
    the message of the error the endpoint throws. *)
Class DocsBackend (Remote : Type) := {
  documents_get :
    JSString -> Remote -> (JSString + Document) * Remote;
  documents_batchUpdate :
    JSString -> list Request -> Remote ->
    (JSString + BatchUpdateDocumentResponse) * Remote }.

(** A backend whose read changes nothing and whose batch is all-or-nothing:
    a rejected batch leaves the remote state as it was. *)
Class AtomicBackend (Remote : Type) `{DocsBackend Remote} : Prop := {
  get_readonly : forall id r, snd (documents_get id r) = r;
  batchUpdate_atomic : forall id reqs r msg r',
    documents_batchUpdate id reqs r = (inl msg, r') -> r' = r }.

(** The document [id] reads back with no text. *)
Definition reads_empty {Remote : Type} `{DocsBackend Remote} (id : JSString)
    (r : Remote) : Prop :=
  exists doc, (documents_get id r).1 = inr doc /\ extractText doc = [].

(** A backend on which the deletion [clearDocument] submits, once accepted,
    leaves a document that reads back with no text. *)
Class ClearingBackend (Remote : Type) `{DocsBackend Remote} : Prop := {
  delete_empties : forall id r doc response r',
    (documents_get id r).1 = inr doc ->
    documents_batchUpdate id
      [DeleteContentRange 1 (endOfDocumentIndex doc - 1)] r
    = (inr response, r') ->
    reads_empty id r' }.

(** What was asked of the backend, in order. *)
Inductive Call :=
| CallGet (documentId : JSString)
| CallBatchUpdate (documentId : JSString) (requests : list Request).

Definition is_submit (c : Call) : bool :=
  match c with
  | CallGet _ => false
  | CallBatchUpdate _ _ => true
  end.

(** The batches submitted, in order. *)
Definition submissions (cs : list Call) : list Call := List.filter is_submit cs.

Section Service.

Context {Remote : Type} `{DocsBackend Remote}.

Record World := mkWorld { remote : Remote; calls : list Call }.

(** A promise: run against the world, it settles with an error (rejected)
    or a value (fulfilled). *)
Definition Async (A : Type) : Type := World -> (GDriveMCPError + A) * World.

Definition ret {A} (a : A) : Async A := fun w => (inr a, w).

Definition throw {A} (e : GDriveMCPError) : Async A := fun w => (inl e, w).

Definition bind {A B} (m : Async A) (k : A -> Async B) : Async B :=
  fun w =>
    match m w with
    | (inl e, w') => (inl e, w')
    | (inr a, w') => k a w'
    end.

End Service.

Arguments World : clear implicits.
Arguments Async : clear implicits.

(** [const x = await m; k]. *)
Notation "'await' x <- m ; k" := (bind m (fun x => k))
  (at level 10, x name, m at level 100, k at level 200).

Section Client.

Context {Remote : Type} `{DocsBackend Remote}.

(** drive-api.client.ts, lines 198-205. *)
Definition client_getDocument (documentId : JSString)
  : Async Remote Document :=
  fun w =>
    let '(r, rem) := documents_get documentId (remote w) in
    let w' := mkWorld rem (calls w ++ [CallGet documentId]) in
    match r with
    | inr data => (inr data, w')
    | inl msg =>
        (inl (createAPIError (lit "Failed to get document: " ++ msg)), w')
    end.

(** drive-api.client.ts, lines 210-220. *)
Definition client_batchUpdateDocument (documentId : JSString)
    (requests : list Request) : Async Remote BatchUpdateDocumentResponse :=
  fun w =>
    let '(r, rem) := documents_batchUpdate documentId requests (remote w) in
    let w' := mkWorld rem (calls w ++ [CallBatchUpdate documentId requests]) in
    match r with
    | inr data => (inr data, w')
    | inl msg =>
        (inl (createAPIError (lit "Failed to update document: " ++ msg)), w')
    end.

End Client.

(** ** DocumentService (services/document.service.ts) *)

Section DocumentService.

Context {Remote : Type} `{DocsBackend Remote}.

(** Lines 48-54. *)
Definition getDocument (id : JSString) : Async Remote Document :=
  await doc <- client_getDocument id;
  if negb (truthy (default [] (documentId doc)))
  then throw (createNotFoundError (lit "Document") id)
  else ret doc.

(** Lines 59-101. The result is the pair (title, content). *)
Definition readDocument (id : JSString)
  : Async Remote (JSString * JSString) :=
  await doc <- getDocument id;
  ret (or_str (title doc) (lit "Untitled"), extractText doc).

(** Lines 106-122. *)
Definition appendText (id text : JSString) : Async Remote unit :=
  if negb (truthy text) then ret tt
  else
    await doc <- getDocument id;
    let endIndex := endOfDocumentIndex doc in
    await _ <- client_batchUpdateDocument id
                 [InsertText (endIndex - 1) text];
    ret tt.

(** Lines 127-140. *)
Definition insertText (id text : JSString) (index : Z)
  : Async Remote unit :=
  if negb (truthy text) then ret tt
  else
    await _ <- client_batchUpdateDocument id [InsertText index text];
    ret tt.

(** Lines 145-160. *)
Definition replaceText (id searchText replaceText : JSString)
  : Async Remote Z :=
  await response <- client_batchUpdateDocument id
                      [ReplaceAllText searchText true replaceText];
  let replaceResult := (replies response ≫= head) ≫= replaceAllText in
  ret (or_num (replaceResult ≫= occurrencesChanged) 0).

(** Lines 165-176. *)
Definition deleteContent (id : JSString) (startIndex endIndex : Z)
  : Async Remote unit :=
  await _ <- client_batchUpdateDocument id
               [DeleteContentRange startIndex endIndex];
  ret tt.

(** Lines 181-188. *)
Definition clearDocument (id : JSString) : Async Remote unit :=
  await doc <- getDocument id;
  let endIndex := endOfDocumentIndex doc in
  if 1 <? endIndex then deleteContent id 1 (endIndex - 1)
  else ret tt.

(** Lines 193-198. *)
Definition updateDocument (id content : JSString) : Async Remote unit :=
  await _ <- clearDocument id;
  if truthy content then appendText id content
  else ret tt.

(** Lines 203-233. *)
Definition addHeading (id text : JSString) (headingLevel : HeadingLevel)
  : Async Remote unit :=
  await doc <- getDocument id;
  let endIndex := endOfDocumentIndex doc in
  let insertIndex := endIndex - 1 in
  let textWithNewline := text ++ nl in
  await _ <- client_batchUpdateDocument id
               [InsertText insertIndex textWithNewline;
                UpdateParagraphStyle insertIndex
                  (insertIndex + len textWithNewline)
                  headingLevel (lit "namedStyleType")];
  ret tt.

(** Lines 238-264. *)
Definition addBulletList (id : JSString) (items : list JSString)
  : Async Remote unit :=
  if (length items =? 0)%nat then ret tt
  else
    await doc <- getDocument id;
    let endIndex := endOfDocumentIndex doc in
    let insertIndex := endIndex - 1 in
    let text := join nl items ++ nl in
    await _ <- client_batchUpdateDocument id
                 [InsertText insertIndex text;
                  CreateParagraphBullets insertIndex
                    (insertIndex + len text)
                    (lit "BULLET_DISC_CIRCLE_SQUARE")];
    ret tt.

End DocumentService.

(** ** The block walk as the specification words it

    The walk of section 4.1: a paragraph contributes its runs, a table its
    marker lines and one line per row, and the text of a cell is the same
    walk applied to the blocks of the cell, trimmed. Kept apart from the
    loops above, to be compared with them. *)

Definition spec_runs (p : option Paragraph) : JSString :=
  concat (map (fun tr => default [] (textRun tr ≫= run_content))
              (default [] (p ≫= elements))).

Fixpoint spec_walkBlock (b : StructuralElement) : JSString :=
  match b with
  | mkStructuralElement p t _ =>
      spec_runs p ++
      match t with
      | None => []
      | Some (mkTable rows) =>
          lit "[TABLE]" ++ nl ++
          match rows with
          | None => []
          | Some rows =>
              concat (map (fun row =>
                match row with
                | mkTableRow cells =>
                    join (lit " | ")
                      match cells with
                      | None => []
                      | Some cells =>
                          map (fun cell =>
                            match cell with
                            | mkTableCell None => trim []
                            | mkTableCell (Some blocks) =>
                                trim (concat (map spec_walkBlock blocks))
                            end) cells
                      end ++ nl
                end) rows)
          end ++
          lit "[/TABLE]" ++ nl
      end
  end.

Definition spec_blockWalk (blocks : list StructuralElement) : JSString :=
  concat (map spec_walkBlock blocks).

Definition spec_cellText (cell : TableCell) : JSString :=
  trim (spec_blockWalk (default [] (cell_content cell))).

(** ** An in-memory backend

    Modelled from the spec: the remote backend, an external collaborator of
    the repository, as sections 3, 4.2, 4.4 and 6 describe it. One
    document is held as flat text that occupies the indices from 1; its
    last paragraph carries a terminator that the [endIndex] counts, so a
    text of length n ends at index n + 2 and the document with no text at
    index 2. A batch is applied in order and not at all when one of its
    requests is rejected; an insertion outside the text, a deletion that
    reaches the terminator and a deletion of an empty range are
    rejected. *)

Module InMemory.

Record Store := mkStore {
  stored_id : JSString;
  stored_title : JSString;
  stored_text : JSString }.

Definition tree (text : JSString) : list StructuralElement :=
  [mkStructuralElement
     (Some (mkParagraph
        (Some [mkParagraphElement (Some (mkTextRun (Some (text ++ nl))))])))
     None (Some (len text + 2))].

Definition render (s : Store) : Document :=
  mkDocument (Some (stored_id s)) (Some (stored_title s))
    (Some (mkBody (Some (tree (stored_text s))))).

Definition eqb_str (a b : JSString) : bool := bool_decide (a = b).

Fixpoint starts_with (pat s : JSString) : bool :=
  match pat, s with
  | [], _ => true
  | _ :: _, [] => false
  | p :: pat', c :: s' => (p =? c)%N && starts_with pat' s'
  end.

(** Replaces the occurrences of a non-empty [pat] from left to right;
    [skip] counts the code units of an occurrence still to pass over. *)
Fixpoint replaceFrom (pat rep : JSString) (skip : nat) (s : JSString)
  : JSString * Z :=
  match s with
  | [] => ([], 0)
  | c :: s' =>
      match skip with
      | S k => replaceFrom pat rep k s'
      | O =>
          if starts_with pat s
          then let '(t, n) := replaceFrom pat rep (length pat - 1) s' in
               (rep ++ t, n + 1)
          else let '(t, n) := replaceFrom pat rep 0 s' in
               (c :: t, n)
      end
  end.

Definition in_text (text : JSString) (s e : Z) : bool :=
  (1 <=? s) && (s <? e) && (e <=? len text + 1).

Definition applyRequest (text : JSString) (r : Request)
  : option (JSString * Reply) :=
  match r with
  | InsertText i t =>
      if (1 <=? i) && (i <=? len text + 1)
      then Some (take (Z.to_nat (i - 1)) text ++ t
                   ++ drop (Z.to_nat (i - 1)) text, mkReply None)
      else None
  | DeleteContentRange s e =>
      if in_text text s e
      then Some (take (Z.to_nat (s - 1)) text
                   ++ drop (Z.to_nat (e - 1)) text, mkReply None)
      else None
  | UpdateParagraphStyle s e _ _ | CreateParagraphBullets s e _ =>
      if (1 <=? s) && (s <? e) && (e <=? len text + 2)
      then Some (text, mkReply None)
      else None
  | ReplaceAllText pat true rep =>
      match pat with
      | [] => None
      | _ :: _ =>
          let '(t, n) := replaceFrom pat rep 0 text in
          Some (t, mkReply (Some (mkReplaceAllTextResponse
                                    (if n =? 0 then None else Some n))))
      end
  | ReplaceAllText _ false _ => None
  end.

Fixpoint applyRequests (text : JSString) (rs : list Request)
  : option (JSString * list Reply) :=
  match rs with
  | [] => Some (text, [])
  | r :: rs' =>
      '(text', reply) ← applyRequest text r;
      '(text'', replies) ← applyRequests text' rs';
      Some (text'', reply :: replies)
  end.

#[global] Instance backend : DocsBackend Store := {
  documents_get id s :=
    if eqb_str id (stored_id s) then (inr (render s), s)
    else (inl (lit "Requested entity was not found."), s);
  documents_batchUpdate id rs s :=
    if eqb_str id (stored_id s) then
      match applyRequests (stored_text s) rs with
      | Some (text', replies) =>
          (inr (mkBatchUpdateDocumentResponse (Some replies)),
           mkStore (stored_id s) (stored_title s) text')
      | None => (inl (lit "Invalid requests"), s)
      end
    else (inl (lit "Requested entity was not found."), s) }.

Definition start (s : Store) : World Store := mkWorld s [].

End InMemory.

(** ** A backend that always gives the same answer

    Every read returns the document held, whatever the id, and every batch
    is accepted without effect: for runs on a given tree. *)

Module Fixed.

#[global] Instance backend : DocsBackend Document := {
  documents_get id doc := (inr doc, doc);
  documents_batchUpdate id rs doc :=
    (inr (mkBatchUpdateDocumentResponse None), doc) }.

Definition start (doc : Document) : World Document := mkWorld doc [].

End Fixed.

(** ** The in-memory backend with a quota

    The in-memory backend behind a count of the batches it will still
    accept: once the count is 0 every batch is rejected, as a backend does
    that fails for a reason of its own. *)

Module Flaky.

Record Store := mkStore { store : InMemory.Store; accepts : nat }.

#[global] Instance backend : DocsBackend Store := {
  documents_get id r :=
    ((documents_get id (store r)).1, mkStore (documents_get id (store r)).2 (accepts r));
  documents_batchUpdate id rs r :=
    match accepts r with
    | O => (inl (lit "Quota exceeded"), r)
    | S n =>
        match documents_batchUpdate id rs (store r) with
        | (inr response, s') => (inr response, mkStore s' n)
        | (inl msg, _) => (inl msg, r)
        end
    end }.

Definition start (s : InMemory.Store) (n : nat) : World Store :=
  mkWorld (mkStore s n) [].

End Flaky.

(** ** Extraction with every dereference written out

    The same loops, with each property access of the source that is not
    an optional chain ([doc.body.content], [element.table.tableRows],
    [textRun.textRun.content], ...) as a dereference that throws a
    [TypeError] on [undefined], and each [if] as the test the source
    performs before it. *)

Module Checked.

Inductive Thrown := TypeError.

Definition Outcome (A : Type) : Type := Thrown + A.

(** [o.f] where [o] may be [undefined]. *)
Definition deref {A} (o : option A) : Outcome A :=
  match o with
  | Some a => inr a
  | None => inl TypeError
  end.

(** [if (o)] on an optional object or array: present is truthy. *)
Definition present {A} (o : option A) : bool :=
  match o with
  | Some _ => true
  | None => false
  end.

(** [if (o)] on an optional string. *)
Definition present_str (o : option JSString) : bool :=
  truthy (default [] o).

(** A [for ... of] loop whose body may throw. *)
Fixpoint forOf {A S} (step : S -> A -> Outcome S) (l : list A) (s : S)
  : Outcome S :=
  match l with
  | [] => inr s
  | x :: l' =>
      match step s x with
      | inl e => inl e
      | inr s' => forOf step l' s'
      end
  end.

Definition andThen {A B} (m : Outcome A) (k : A -> Outcome B) : Outcome B :=
  match m with
  | inl e => inl e
  | inr a => k a
  end.

(** Lines 67-71 and 81-85; [f] is the identity at the top level and
    [trim] inside a cell. *)
Definition runs (f : JSString -> JSString) (acc : JSString)
    (els : list ParagraphElement) : Outcome JSString :=
  forOf (fun acc tr =>
    if present_str (textRun tr ≫= run_content) then
      andThen (deref (textRun tr)) (fun r =>
      andThen (deref (run_content r)) (fun c =>
      inr (acc ++ f c)))
    else inr acc) els acc.

(** Lines 80-86 and 66-72: [if (b.paragraph?.elements)] and the loop over
    [b.paragraph.elements]. *)
Definition paragraphOf (f : JSString -> JSString) (acc : JSString)
    (b : StructuralElement) : Outcome JSString :=
  if present (paragraph b ≫= elements) then
    andThen (deref (paragraph b)) (fun p =>
    andThen (deref (elements p)) (fun els =>
    runs f acc els))
  else inr acc.

(** Lines 78-87. *)
Definition cellTextOf (cell : TableCell) : Outcome JSString :=
  forOf (paragraphOf trim) (default [] (cell_content cell)) [].

(** Lines 76-89. *)
Definition rowCells (row : TableRow) : Outcome (list JSString) :=
  forOf (fun cells cell =>
    andThen (cellTextOf cell) (fun cellText =>
    inr (cells ++ [cellText]))) (default [] (tableCells row)) [].

(** Lines 73-93. *)
Definition tableOf (content : JSString) (element : StructuralElement)
  : Outcome JSString :=
  if present (table element) then
    let content := content ++ lit "[TABLE]" ++ nl in
    andThen (deref (table element)) (fun tbl =>
    andThen (forOf (fun content row =>
               andThen (rowCells row) (fun cells =>
               inr (content ++ join (lit " | ") cells ++ nl)))
             (default [] (tableRows tbl)) content) (fun content =>
    inr (content ++ lit "[/TABLE]" ++ nl)))
  else inr content.

(** Lines 62-95 and 99. *)
Definition extractText (doc : Document) : Outcome JSString :=
  andThen
    (if present (body doc ≫= body_content) then
       andThen (deref (body doc)) (fun b =>
       andThen (deref (body_content b)) (fun els =>
       forOf (fun content element =>
         andThen (paragraphOf id content element) (fun content =>
         tableOf content element)) els []))
     else inr [])
    (fun content => inr (trim content)).

End Checked.

(** ** Closed forms of the extraction loops *)

(** What a run contributes: its text, or nothing when the run or its text
    is absent. *)
Definition runText (tr : ParagraphElement) : JSString :=
  default [] (textRun tr ≫= run_content).

(** The runs of the paragraph of a block, each passed through [f]. *)
Definition blockRuns (f : JSString -> JSString) (b : StructuralElement)
  : JSString :=
  concat (map (fun tr => f (runText tr)) (default [] (paragraph b ≫= elements))).

(** A cell: the trimmed runs of the paragraphs among its blocks. *)
Definition cellText_flat (cell : TableCell) : JSString :=
  concat (map (blockRuns trim) (default [] (cell_content cell))).

(** A row: one line, the cells joined by [" | "]. *)
Definition rowLine_flat (row : TableRow) : JSString :=
  join (lit " | ") (map cellText_flat (default [] (tableCells row))) ++ nl.

(** A table: the two marker lines around one line per row. *)
Definition tableText_flat (tbl : Table) : JSString :=
  lit "[TABLE]" ++ nl
  ++ concat (map rowLine_flat (default [] (tableRows tbl)))
  ++ lit "[/TABLE]" ++ nl.

(** A top-level block: its paragraph runs, then its table. *)
Definition blockText_flat (b : StructuralElement) : JSString :=
  blockRuns id b ++ from_option tableText_flat [] (table b).

(** The insert indices among the submitted batches, in order. *)
Definition insertionIndices (cs : list Call) : list Z :=
  flat_map (fun c =>
    match c with
    | CallGet _ => []
    | CallBatchUpdate _ rs =>
        flat_map (fun r =>
          match r with
          | InsertText i _ => [i]
          | _ => []
          end) rs
    end) cs.


(** The count a batch response reports for its first request, if any. *)
Definition reportedCount (response : BatchUpdateDocumentResponse)
  : option Z :=
  ((replies response ≫= head) ≫= replaceAllText) ≫= occurrencesChanged.

(** ** The Drive endpoints and the methods that reach them *)

(** drive_v3.Schema$File, the fields the document service sets or reads. *)
Record DriveFile := mkDriveFile {
  file_id : option JSString;
  file_name : option JSString;
  file_mimeType : option JSString;
  file_parents : option (list JSString) }.

Record Media := mkMedia { media_mimeType : JSString; media_body : JSString }.

(** The options of [DriveAPIClient.listFiles]. *)
Record ListOptions := mkListOptions {
  opt_query : option JSString;
  opt_pageSize : option Z;
  opt_pageToken : option JSString;
  opt_fields : option JSString;
  opt_orderBy : option JSString }.

(** The parameters of [drive.files.list]. *)
Record ListParams := mkListParams {
  q : option JSString;
  pageSize : Z;
  pageToken : option JSString;
  fields : JSString;
  orderBy : JSString }.

Record FileList := mkFileList { files : option (list DriveFile) }.

Inductive ExportFormat := pdf | docx | txt | html.

Class DriveBackend (Remote : Type) := {
  files_list : ListParams -> Remote -> (JSString + FileList) * Remote;
  files_create :
    DriveFile -> option Media -> JSString -> Remote ->
    (JSString + DriveFile) * Remote;
  files_export :
    JSString -> JSString -> Remote -> (JSString + JSString) * Remote }.

Inductive DriveCall :=
| CallList (params : ListParams)
| CallCreate (requestBody : DriveFile) (media : option Media)
    (fields : JSString)
| CallExport (fileId mimeType : JSString).

Definition DOCS_MIME_TYPE : JSString :=
  lit "application/vnd.google-apps.document".

(** [if (o)] on an optional string. *)
Definition truthy_opt (o : option JSString) : bool := truthy (default [] o).

Section Drive.

Context {Remote : Type} `{DocsBackend Remote} `{DriveBackend Remote}.

(** The world of the Docs endpoints, and what was asked of Drive. *)
Record Session := mkSession { docs : World Remote; driveCalls : list DriveCall }.

Definition AsyncD (A : Type) : Type :=
  Session -> (GDriveMCPError + A) * Session.

Definition retD {A} (a : A) : AsyncD A := fun s => (inr a, s).

Definition throwD {A} (e : GDriveMCPError) : AsyncD A := fun s => (inl e, s).

Definition bindD {A B} (m : AsyncD A) (k : A -> AsyncD B) : AsyncD B :=
  fun s =>
    match m s with
    | (inl e, s') => (inl e, s')
    | (inr a, s') => k a s'
    end.

(** A method of the Docs part, run inside a session. *)
Definition liftDocs {A} (m : Async Remote A) : AsyncD A :=
  fun s =>
    let '(r, w) := m (docs s) in
    (r, mkSession w (driveCalls s)).

(** One call of a Drive endpoint, logged; [wrap] is the prefix the client
    puts before the message of a failure. *)
Definition driveCall {A} (c : DriveCall)
    (endpoint : Remote -> (JSString + A) * Remote) (wrap : JSString)
  : AsyncD A :=
  fun s =>
    let '(r, rem) := endpoint (remote (docs s)) in
    let s' := mkSession (mkWorld rem (calls (docs s))) (driveCalls s ++ [c]) in
    match r with
    | inr data => (inr data, s')
    | inl msg => (inl (createAPIError (wrap ++ msg)), s')
    end.

(** drive-api.client.ts, lines 48-67. *)
Definition client_listFiles (options : ListOptions) : AsyncD FileList :=
  let params :=
    mkListParams (opt_query options)
      (or_num (opt_pageSize options) 100)
      (opt_pageToken options)
      (or_str (opt_fields options)
         (lit "nextPageToken, files(id, name, mimeType, parents, createdTime, modifiedTime, size, webViewLink, webContentLink, owners, shared, trashed)"))
      (or_str (opt_orderBy options) (lit "modifiedTime desc")) in
  driveCall (CallList params) (files_list params)
    (lit "Failed to list files: ").

(** drive-api.client.ts, lines 87-98. *)
Definition client_createFile (metadata : DriveFile) (media : option Media)
  : AsyncD DriveFile :=
  let fields := lit "id, name, mimeType, parents, webViewLink" in
  driveCall (CallCreate metadata media fields)
    (files_create metadata media fields)
    (lit "Failed to create file: ").

(** drive-api.client.ts, lines 179-191. *)
Definition client_exportFile (fileId mimeType : JSString) : AsyncD JSString :=
  driveCall (CallExport fileId mimeType) (files_export fileId mimeType)
    (lit "Failed to export file: ").

End Drive.

Arguments Session : clear implicits.
Arguments AsyncD : clear implicits.

(** [const x = await m; k] inside a session. *)
Notation "'await' x <== m ; k" := (bindD m (fun x => k))
  (at level 10, x name, m at level 100, k at level 200).

Section DriveMethods.

Context {Remote : Type} `{DocsBackend Remote} `{DriveBackend Remote}.

(** document.service.ts, lines 21-43. *)
Definition createDocument (title : JSString) (content parentId : option JSString)
  : AsyncD Remote DriveFile :=
  if negb (truthy title)
  then throwD (createValidationError (lit "Document title is required"))
  else
    let metadata :=
      mkDriveFile None (Some title) (Some DOCS_MIME_TYPE)
        (if truthy_opt parentId then Some [default [] parentId] else None) in
    await doc <== client_createFile metadata None;
    await _ <== (if truthy_opt content && truthy_opt (file_id doc)
                 then liftDocs (appendText (default [] (file_id doc))
                                  (default [] content))
                 else retD tt);
    retD doc.

(** document.service.ts, lines 269-277; an omitted [maxResults] is 50. *)
Definition listDocuments (maxResults : option Z)
  : AsyncD Remote (list DriveFile) :=
  await response <== client_listFiles
    (mkListOptions
       (Some (lit "mimeType = '" ++ DOCS_MIME_TYPE
              ++ lit "' and trashed = false"))
       (Some (default 50 maxResults)) None None
       (Some (lit "modifiedTime desc")));
  retD (default [] (files response)).

(** document.service.ts, lines 282-289. *)
Definition searchDocuments (name : JSString) (maxResults : option Z)
  : AsyncD Remote (list DriveFile) :=
  await response <== client_listFiles
    (mkListOptions
       (Some (lit "name contains '" ++ name ++ lit "' and mimeType = '"
              ++ DOCS_MIME_TYPE ++ lit "' and trashed = false"))
       (Some (default 50 maxResults)) None None None);
  retD (default [] (files response)).

(** document.service.ts, lines 295-300: the table [mimeTypes]. *)
Definition exportMimeType (format : ExportFormat) : JSString :=
  match format with
  | pdf => lit "application/pdf"
  | docx =>
      lit "application/vnd.openxmlformats-officedocument.wordprocessingml.document"
  | txt => lit "text/plain"
  | html => lit "text/html"
  end.

(** document.service.ts, lines 294-303; an omitted [format] is [pdf]. *)
Definition exportDocument (id : JSString) (format : option ExportFormat)
  : AsyncD Remote JSString :=
  client_exportFile id (exportMimeType (default pdf format)).

End DriveMethods.

(** ** Drive over the in-memory store

    The store holds one document: creating a file replaces it by a new,
    empty document with the id ["doc-2"]; listing returns the stored
    document; exporting returns its text. *)

Module InMemoryDrive.

Definition stored_file (s : InMemory.Store) : DriveFile :=
  mkDriveFile (Some (InMemory.stored_id s)) (Some (InMemory.stored_title s))
    (Some DOCS_MIME_TYPE) None.

#[global] Instance backend : DriveBackend InMemory.Store := {
  files_list params s := (inr (mkFileList (Some [stored_file s])), s);
  files_create metadata media fields s :=
    match file_name metadata with
    | Some name =>
        (inr (mkDriveFile (Some (lit "doc-2")) (Some name)
                (file_mimeType metadata) (file_parents metadata)),
         InMemory.mkStore (lit "doc-2") name [])
    | None => (inl (lit "Invalid metadata"), s)
    end;
  files_export id mimeType s :=
    if InMemory.eqb_str id (InMemory.stored_id s)
    then (inr (InMemory.stored_text s), s)
    else (inl (lit "File not found."), s) }.

Definition start (s : InMemory.Store) : Session InMemory.Store :=
  mkSession (InMemory.start s) [].

End InMemoryDrive.

(** The same over the backend with a quota; the quota counts batches only. *)

Module FlakyDrive.

#[global] Instance backend : DriveBackend Flaky.Store := {
  files_list params r :=
    ((files_list params (Flaky.store r)).1,
     Flaky.mkStore (files_list params (Flaky.store r)).2 (Flaky.accepts r));
  files_create metadata media fields r :=
    ((files_create metadata media fields (Flaky.store r)).1,
     Flaky.mkStore (files_create metadata media fields (Flaky.store r)).2
       (Flaky.accepts r));
  files_export id mimeType r :=
    ((files_export id mimeType (Flaky.store r)).1,
     Flaky.mkStore (files_export id mimeType (Flaky.store r)).2
       (Flaky.accepts r)) }.

Definition start (s : InMemory.Store) (n : nat) : Session Flaky.Store :=
  mkSession (Flaky.start s n) [].

End FlakyDrive.

(** ** MIME types (utils/mime.util.ts) *)

(** mime.util.ts, lines 8-120: the table [MIME_TYPES]. *)
Definition MIME_TYPES : list (string * string) :=
  [(".txt", "text/plain");
   (".md", "text/markdown");
   (".markdown", "text/markdown");
   (".csv", "text/csv");
   (".tsv", "text/tab-separated-values");
   (".log", "text/plain");
   (".ini", "text/plain");
   (".cfg", "text/plain");
   (".conf", "text/plain");
   (".env", "text/plain");
   (".js", "text/javascript");
   (".mjs", "text/javascript");
   (".ts", "text/typescript");
   (".jsx", "text/javascript");
   (".tsx", "text/typescript");
   (".json", "application/json");
   (".xml", "application/xml");
   (".yaml", "text/yaml");
   (".yml", "text/yaml");
   (".html", "text/html");
   (".htm", "text/html");
   (".css", "text/css");
   (".scss", "text/x-scss");
   (".sass", "text/x-sass");
   (".less", "text/x-less");
   (".py", "text/x-python");
   (".rb", "text/x-ruby");
   (".php", "text/x-php");
   (".java", "text/x-java");
   (".c", "text/x-c");
   (".cpp", "text/x-c++");
   (".h", "text/x-c");
   (".hpp", "text/x-c++");
   (".cs", "text/x-csharp");
   (".go", "text/x-go");
   (".rs", "text/x-rust");
   (".swift", "text/x-swift");
   (".kt", "text/x-kotlin");
   (".scala", "text/x-scala");
   (".sh", "text/x-shellscript");
   (".bash", "text/x-shellscript");
   (".zsh", "text/x-shellscript");
   (".ps1", "text/x-powershell");
   (".sql", "text/x-sql");
   (".r", "text/x-r");
   (".lua", "text/x-lua");
   (".pl", "text/x-perl");
   (".pm", "text/x-perl");
   (".pdf", "application/pdf");
   (".doc", "application/msword");
   (".docx", "application/vnd.openxmlformats-officedocument.wordprocessingml.document");
   (".rtf", "application/rtf");
   (".odt", "application/vnd.oasis.opendocument.text");
   (".xls", "application/vnd.ms-excel");
   (".xlsx", "application/vnd.openxmlformats-officedocument.spreadsheetml.sheet");
   (".ods", "application/vnd.oasis.opendocument.spreadsheet");
   (".ppt", "application/vnd.ms-powerpoint");
   (".pptx", "application/vnd.openxmlformats-officedocument.presentationml.presentation");
   (".odp", "application/vnd.oasis.opendocument.presentation");
   (".jpg", "image/jpeg");
   (".jpeg", "image/jpeg");
   (".png", "image/png");
   (".gif", "image/gif");
   (".webp", "image/webp");
   (".svg", "image/svg+xml");
   (".ico", "image/x-icon");
   (".bmp", "image/bmp");
   (".tiff", "image/tiff");
   (".tif", "image/tiff");
   (".mp3", "audio/mpeg");
   (".wav", "audio/wav");
   (".ogg", "audio/ogg");
   (".flac", "audio/flac");
   (".aac", "audio/aac");
   (".m4a", "audio/mp4");
   (".mp4", "video/mp4");
   (".webm", "video/webm");
   (".avi", "video/x-msvideo");
   (".mov", "video/quicktime");
   (".wmv", "video/x-ms-wmv");
   (".mkv", "video/x-matroska");
   (".zip", "application/zip");
   (".tar", "application/x-tar");
   (".gz", "application/gzip");
   (".rar", "application/vnd.rar");
   (".7z", "application/x-7z-compressed");
   (".bz2", "application/x-bzip2");
   (".bin", "application/octet-stream");
   (".exe", "application/x-msdownload");
   (".dll", "application/x-msdownload");
   (".dmg", "application/x-apple-diskimage");
   (".iso", "application/x-iso9660-image")]%string.

(** mime.util.ts, lines 139-146: the table [GOOGLE_EXTENSIONS], with the
    values of [GOOGLE_MIME_TYPES] (lines 125-134) it names. *)
Definition GOOGLE_EXTENSIONS : list (string * string) :=
  [(".gdoc", "application/vnd.google-apps.document");
   (".gsheet", "application/vnd.google-apps.spreadsheet");
   (".gslide", "application/vnd.google-apps.presentation");
   (".gslides", "application/vnd.google-apps.presentation");
   (".gform", "application/vnd.google-apps.form");
   (".gdraw", "application/vnd.google-apps.drawing")]%string.

(** [table[key]] on an object literal whose keys all start with a dot: the
    value of the own property [key], if any. The keys looked up below are
    empty or start with a dot, so no inherited property is ever reached. *)
Definition property (table : list (string * string)) (key : JSString)
  : option JSString :=
  (fun kv => lit kv.2) <$> List.find (fun kv => bool_decide (lit kv.1 = key)) table.

(** The code unit of the full stop. *)
Definition dot : N := 46.

Fixpoint lastIndexFrom (c : N) (s : JSString) (i found : Z) : Z :=
  match s with
  | [] => found
  | x :: s' => lastIndexFrom c s' (i + 1) (if (x =? c)%N then i else found)
  end.

(** [s.lastIndexOf(c)] for a string [c] of one code unit: -1 when [c] does
    not occur. *)
Definition lastIndexOf (c : N) (s : JSString) : Z := lastIndexFrom c s 0 (-1).

(** [s.substring(start)]. *)
Definition substring (start : Z) (s : JSString) : JSString :=
  drop (Z.to_nat start) s.

(** [s.startsWith(prefix)]. *)
Fixpoint startsWith (prefix s : JSString) : bool :=
  match prefix, s with
  | [], _ => true
  | _ :: _, [] => false
  | p :: prefix', c :: s' => (p =? c)%N && startsWith prefix' s'
  end.

(** mime.util.ts, lines 171-177. *)
Definition getExtension (filename : JSString) : JSString :=
  let lastDot := lastIndexOf dot filename in
  if (lastDot =? -1) || (lastDot =? 0) then []
  else substring lastDot filename.

(** mime.util.ts, lines 182-184. *)
Definition isGoogleWorkspaceType (mimeType : JSString) : bool :=
  startsWith (lit "application/vnd.google-apps.") mimeType.

Section MimeType.

(** [String.prototype.toLowerCase]. *)
Variable toLowerCase : JSString -> JSString.

(** mime.util.ts, lines 151-166. *)
Definition getMimeType (filename : JSString) : JSString :=
  let ext := toLowerCase (getExtension filename) in
  if truthy_opt (property GOOGLE_EXTENSIONS ext)
  then default [] (property GOOGLE_EXTENSIONS ext)
  else if truthy_opt (property MIME_TYPES ext)
  then default [] (property MIME_TYPES ext)
  else lit "application/octet-stream".

End MimeType.

(** What [toLowerCase] does to a string of ASCII code units: the letters A
    to Z become a to z. *)
Definition asciiLower (s : JSString) : JSString :=
  map (fun c => if (65 <=? c) && (c <=? 90) then c + 32 else c)%N s.

(** ** CSV rows (services/spreadsheet.service.ts, lines 383-401) *)

(** [s.split(sep)] for a separator [sep] of one code unit. *)
Fixpoint split (sep : N) (s : JSString) : list JSString :=
  match s with
  | [] => [[]]
  | c :: s' =>
      if (c =? sep)%N then [] :: split sep s'
      else match split sep s' with
           | h :: t => (c :: h) :: t
           | [] => [[c]]
           end
  end.

Definition is_high (c : N) : bool := ((55296 <=? c) && (c <=? 56319))%N.

Definition is_low (c : N) : bool := ((56320 <=? c) && (c <=? 57343))%N.

(** The string iterator of [for (const char of row)]: one string for each
    code point, a surrogate pair being one code point. *)
Fixpoint chars (s : JSString) : list JSString :=
  match s with
  | [] => []
  | c :: s' =>
      match s' with
      | d :: s'' =>
          if is_high c && is_low d then [c; d] :: chars s''
          else [c] :: chars s'
      | [] => [[c]]
      end
  end.

(** The variables of the loop over a row. *)
Record RowState := mkRowState {
  row_values : list JSString;
  row_current : JSString;
  row_inQuotes : bool }.

(** The string of one quotation mark. *)
Definition quote : JSString := [34%N].

(** Lines 390-398: the body of the loop. *)
Definition rowStep (st : RowState) (char : JSString) : RowState :=
  if bool_decide (char = quote)
  then mkRowState (row_values st) (row_current st) (negb (row_inQuotes st))
  else if bool_decide (char = lit ",") && negb (row_inQuotes st)
  then mkRowState (row_values st ++ [trim (row_current st)]) []
         (row_inQuotes st)
  else mkRowState (row_values st) (row_current st ++ char) (row_inQuotes st).

(** Lines 384-400: the values of one row. *)
Definition parseRow (row : JSString) : list JSString :=
  let st := fold_left rowStep (chars row) (mkRowState [] [] false) in
  row_values st ++ [trim (row_current st)].

(** Lines 383-401: [rows]. *)
Definition csvRows (csvData : JSString) : list (list JSString) :=
  map parseRow (split 10 csvData).

(** The loop body on one code unit. *)
Definition unitStep (st : RowState) (c : N) : RowState :=
  if (c =? 34)%N
  then mkRowState (row_values st) (row_current st) (negb (row_inQuotes st))
  else if (c =? 44)%N && negb (row_inQuotes st)
  then mkRowState (row_values st ++ [trim (row_current st)]) []
         (row_inQuotes st)
  else mkRowState (row_values st) (row_current st ++ [c]) (row_inQuotes st).

(** ** Creating and uploading files (services/file.service.ts) *)

(** [s.includes(c)] for a string [c] of one code unit. *)
Definition includes (c : N) (s : JSString) : bool := existsb (N.eqb c) s.

(** file.service.ts, lines 85-89: [isMimeType]. *)
Definition isMimeType (mimeTypeOrContent : option JSString) : bool :=
  truthy_opt mimeTypeOrContent
  && (includes 47 (default [] mimeTypeOrContent)
      && negb (includes 10 (default [] mimeTypeOrContent))
      && (len (default [] mimeTypeOrContent) <? 100)).

(** A code unit of the subject against a code unit of a pattern under the
    flag [i]: a letter a to z of the pattern also matches its capital, and
    no code unit outside ASCII matches an ASCII letter. *)
Definition unitMatches (p c : N) : bool :=
  ((c =? p) || ((97 <=? p) && (p <=? 122) && (c =? p - 32)))%N.

Fixpoint allMatch (pattern s : JSString) : bool :=
  match pattern, s with
  | [], [] => true
  | p :: pattern', c :: s' => unitMatches p c && allMatch pattern' s'
  | _, _ => false
  end.

(** The strings the pattern of line 132 matches at the end of a name, the
    flag [i] apart. *)
Definition googleSuffixes : list string :=
  [".gdoc"; ".gsheet"; ".gslides"; ".gslide"; ".gform"; ".gdraw"]%string.

(** file.service.ts, line 132:
    [name.replace(/\.(gdoc|gsheet|gslides?|gform|gdraw)$/i, '')]. *)
Definition stripGoogleExtension (name : JSString) : JSString :=
  match
    List.find (fun suffix =>
      allMatch (lit suffix)
        (drop (length name - length (lit suffix)) name)) googleSuffixes
  with
  | Some suffix => take (length name - length (lit suffix)) name
  | None => name
  end.

(** [parents = [parentId]] when [parentId] is given and not empty. *)
Definition parentsOf (parentId : option JSString) : option (list JSString) :=
  if truthy_opt parentId then Some [default [] parentId] else None.

Section FileService.

Context {Remote : Type} `{DocsBackend Remote} `{DriveBackend Remote}.

(** [String.prototype.toLowerCase]. *)
Variable toLowerCase : JSString -> JSString.

(** file.service.ts, lines 125-149. *)
Definition createGoogleWorkspaceFile (name mimeType : JSString)
    (content parentId : option JSString) : AsyncD Remote DriveFile :=
  let cleanName := stripGoogleExtension name in
  let metadata :=
    mkDriveFile None (Some cleanName) (Some mimeType) (parentsOf parentId) in
  client_createFile metadata None.

(** file.service.ts, lines 69-120. *)
Definition createFile (name : JSString)
    (mimeTypeOrContent contentOrParentId parentId : option JSString)
  : AsyncD Remote DriveFile :=
  if negb (truthy name)
  then throwD (createValidationError (lit "File name is required"))
  else
    let '(mimeType, content, finalParentId) :=
      if isMimeType mimeTypeOrContent
      then (default [] mimeTypeOrContent, contentOrParentId, parentId)
      else (getMimeType toLowerCase name, mimeTypeOrContent,
            contentOrParentId) in
    if isGoogleWorkspaceType mimeType
    then createGoogleWorkspaceFile name mimeType content finalParentId
    else
      let metadata :=
        mkDriveFile None (Some name) (Some mimeType)
          (parentsOf finalParentId) in
      let media :=
        if truthy_opt content
        then Some (mkMedia mimeType (default [] content))
        else None in
      client_createFile metadata media.

(** file.service.ts, lines 153-164; the line written to the console is
    left out. *)
Definition uploadFile (name content : JSString)
    (parentId explicitMimeType : option JSString) : AsyncD Remote DriveFile :=
  let mimeType := or_str explicitMimeType (getMimeType toLowerCase name) in
  createFile name (Some mimeType) (Some content) parentId.

End FileService.

(** What [createFile] asks of Drive once it has settled on a MIME type, a
    content and a parent, for a name that is not empty. *)
Definition createRequest (name mimeType : JSString)
    (content parentId : option JSString) : DriveCall :=
  if isGoogleWorkspaceType mimeType
  then CallCreate
         (mkDriveFile None (Some (stripGoogleExtension name)) (Some mimeType)
            (parentsOf parentId))
         None (lit "id, name, mimeType, parents, webViewLink")
  else CallCreate
         (mkDriveFile None (Some name) (Some mimeType) (parentsOf parentId))
         match content with
         | Some (c :: text) => Some (mkMedia mimeType (c :: text))
         | _ => None
         end
         (lit "id, name, mimeType, parents, webViewLink").

(** ** Reading the call log *)

(** The document a call addresses. *)
Definition call_documentId (c : Call) : JSString :=
  match c with
  | CallGet id => id
  | CallBatchUpdate id _ => id
  end.

(** [m] only adds to the call log, every call it adds addresses the document
    [id], and at most [n] of them are submissions. *)
Definition traces {Remote : Type} {A : Type} (id : JSString) (n : nat)
    (m : Async Remote A) : Prop :=
  forall w, exists cs,
    calls (m w).2 = calls w ++ cs
    /\ Forall (fun c => call_documentId c = id) cs
    /\ (length (submissions cs) <= n)%nat.

(** [m] leaves the remote state as it found it, fulfilled or rejected. *)
Definition read_only {Remote : Type} {A : Type} (m : Async Remote A) : Prop :=
  forall w, remote (m w).2 = remote w.

(** A string with white space neither at its start nor at its end. *)
Definition trimmed (s : JSString) : Prop :=
  (forall c r, s = c :: r -> is_space c = false)
  /\ (forall c, last s = Some c -> is_space c = false).

(** The length of the lines of a list, each with its line feed. *)
Definition linesLength (items : list JSString) : Z :=
  fold_right (fun item n => len item + 1 + n) 0 items.

(** ** Sample documents and stores *)

Module Samples.

Definition run (text : string) : ParagraphElement :=
  mkParagraphElement (Some (mkTextRun (Some (lit text)))).

Definition para (runs : list string) (e : option Z) : StructuralElement :=
  mkStructuralElement (Some (mkParagraph (Some (map run runs)))) None e.

Definition cell (blocks : list StructuralElement) : TableCell :=
  mkTableCell (Some blocks).

Definition grid (rows : list (list TableCell)) (e : option Z)
  : StructuralElement :=
  mkStructuralElement None
    (Some (mkTable (Some (map (fun cells => mkTableRow (Some cells)) rows))))
    e.

Definition doc_of (blocks : list StructuralElement) : Document :=
  mkDocument (Some (lit "doc-1")) (Some (lit "Notes"))
    (Some (mkBody (Some blocks))).

(** A cell whose paragraph is split into the runs ["a "] and ["b"]. *)
Definition cell_two_runs : TableCell :=
  cell [para ["a "; "b"]%string None].

(** A cell that holds a table of one cell. *)
Definition cell_nested : TableCell :=
  cell [grid [[cell [para ["x"]%string None]]] None].

(** The table of rows [a, b] and [c, d]. *)
Definition doc_table : Document :=
  doc_of [grid [[cell [para ["a"]%string None]; cell [para ["b"]%string None]];
                [cell [para ["c"]%string None]; cell [para ["d"]%string None]]]
            (Some 20)].

(** A tree of one paragraph that carries no [endIndex]. *)
Definition doc_no_endIndex : Document :=
  doc_of [para ["Hello"]%string None].

(** A tree of one paragraph ending at index 7. *)
Definition doc_hello : Document :=
  doc_of [para ["Hello"]%string (Some 7)].

(** A tree of one empty paragraph ending at index 1. *)
Definition doc_endIndex_one : Document :=
  doc_of [para [] (Some 1)].

Definition doc_empty : Document := doc_of [].

Definition id1 : JSString := lit "doc-1".

Definition store_hello : InMemory.Store :=
  InMemory.mkStore id1 (lit "Notes") (lit "Hello").


End Samples.

(** * Properties *)

(** ** Loops as concatenations *)

Lemma fold_left_snoc {A B} (step : list B -> A -> list B) (g : A -> list B) :
  (forall acc x, step acc x = acc ++ g x) ->
  forall l acc, fold_left step l acc = acc ++ concat (map g l).
Proof.
  intros Hstep l; induction l as [|x l IH]; intros acc; simpl.
  - now rewrite app_nil_r.
  - rewrite IH, Hstep, <- app_assoc. reflexivity.
Qed.

Lemma concat_map_singleton {A B} (f : A -> B) (l : list A) :
  concat (map (fun x => [f x]) l) = map f l.
Proof. induction l as [|x l IH]; simpl; [reflexivity | now rewrite IH]. Qed.

Lemma trim_nil : trim [] = [].
Proof. reflexivity. Qed.

Lemma run_step (f : JSString -> JSString) (acc : JSString)
    (tr : ParagraphElement) :
  f [] = [] ->
  match textRun tr ≫= run_content with
  | Some c => if truthy c then acc ++ f c else acc
  | None => acc
  end = acc ++ f (runText tr).
Proof.
  intros Hf. unfold runText.
  destruct tr as [[r|]]; [destruct r as [[[|c s]|]]|]; simpl;
    rewrite ?Hf, ?app_nil_r; reflexivity.
Qed.

Lemma paragraphRuns_flat (content : JSString) (els : list ParagraphElement) :
  paragraphRuns content els = content ++ concat (map runText els).
Proof.
  unfold paragraphRuns.
  apply (fold_left_snoc _ runText). intros acc tr.
  apply (run_step (fun s => s)). reflexivity.
Qed.

Lemma cellRuns_flat (cellText : JSString) (els : list ParagraphElement) :
  cellRuns cellText els
  = cellText ++ concat (map (fun tr => trim (runText tr)) els).
Proof.
  unfold cellRuns.
  apply (fold_left_snoc _ (fun tr => trim (runText tr))). intros acc tr.
  apply (run_step trim). exact trim_nil.
Qed.

Lemma cellTextOf_flat (cell : TableCell) : cellTextOf cell = cellText_flat cell.
Proof.
  unfold cellTextOf, cellText_flat.
  rewrite (fold_left_snoc _ (blockRuns trim)); [reflexivity|].
  intros acc b. unfold blockRuns.
  destruct (paragraph b ≫= elements) as [els|]; simpl.
  - apply cellRuns_flat.
  - now rewrite app_nil_r.
Qed.

Lemma rowCells_flat (row : TableRow) :
  rowCells row = map cellText_flat (default [] (tableCells row)).
Proof.
  unfold rowCells.
  rewrite (fold_left_snoc _ (fun cell => [cellTextOf cell]))
    by reflexivity.
  simpl. rewrite concat_map_singleton.
  apply map_ext. exact cellTextOf_flat.
Qed.

Lemma tableInto_flat (content : JSString) (tbl : Table) :
  tableInto content tbl = content ++ tableText_flat tbl.
Proof.
  unfold tableInto, tableText_flat.
  rewrite (fold_left_snoc _ rowLine_flat).
  - rewrite <- !app_assoc. reflexivity.
  - intros acc row. unfold rowLine_flat. now rewrite rowCells_flat.
Qed.

Lemma elementInto_flat (content : JSString) (b : StructuralElement) :
  elementInto content b = content ++ blockText_flat b.
Proof.
  unfold elementInto, blockText_flat, blockRuns.
  destruct (paragraph b ≫= elements) as [els|]; simpl.
  - rewrite paragraphRuns_flat.
    destruct (table b) as [tbl|]; simpl.
    + rewrite tableInto_flat, <- app_assoc. reflexivity.
    + now rewrite app_nil_r.
  - destruct (table b) as [tbl|]; simpl.
    + apply tableInto_flat.
    + now rewrite app_nil_r.
Qed.

Lemma extractText_flat (doc : Document) :
  extractText doc
  = trim (concat (map blockText_flat (default [] (body doc ≫= body_content)))).
Proof.
  unfold extractText.
  destruct (body doc ≫= body_content) as [els|]; simpl; [|reflexivity].
  now rewrite (fold_left_snoc _ blockText_flat) by apply elementInto_flat.
Qed.

(** ** Text extraction *)

(** C2 (as amended). Text extraction is the trimmed concatenation of what
    each top-level block contributes; a block with a table contributes, after
    its paragraph runs, the [TABLE] marker line, one line per row and the
    [/TABLE] marker line; the line of a row joins the texts of its cells
    with [" | "]; and the text of a cell is the concatenation, over the
    paragraphs among the blocks of the cell, of each run trimmed on its own:
    a table nested in a cell contributes nothing, and the concatenation is
    not trimmed again. *)
Theorem extractText_table_rows :
  (forall doc,
     extractText doc
     = trim (concat (map blockText_flat
                       (default [] (body doc ≫= body_content)))))
  /\ (forall content p tbl e,
        elementInto content (mkStructuralElement p (Some tbl) e)
        = content ++ blockRuns id (mkStructuralElement p (Some tbl) e)
            ++ lit "[TABLE]" ++ nl
            ++ concat (map (fun row =>
                 join (lit " | ") (rowCells row) ++ nl)
                 (default [] (tableRows tbl)))
            ++ lit "[/TABLE]" ++ nl)
  /\ (forall row,
        rowCells row = map cellTextOf (default [] (tableCells row)))
  /\ (forall cell,
        cellTextOf cell
        = concat (map (fun b =>
            concat (map (fun tr => trim (runText tr))
                      (default [] (paragraph b ≫= elements))))
            (default [] (cell_content cell))))
  /\ (forall p t t' e e',
        blockRuns trim (mkStructuralElement p t e)
        = blockRuns trim (mkStructuralElement p t' e')).
Proof.
  split; [exact extractText_flat|].
  split.
  { intros content p tbl e. rewrite elementInto_flat.
    rewrite (map_ext (fun row => join (lit " | ") (rowCells row) ++ nl)
               rowLine_flat)
      by (intros row; unfold rowLine_flat; now rewrite rowCells_flat).
    reflexivity. }
  split.
  { intros row. rewrite rowCells_flat. apply map_ext.
    intros cell. symmetry. apply cellTextOf_flat. }
  split; [exact cellTextOf_flat | reflexivity].
Qed.

(** C2 (as stated) fails: on the cell whose paragraph has the runs ["a "]
    and ["b"], the loops give ["ab"], where the walk of the blocks of the
    cell, trimmed, is ["a b"]. *)
Lemma cellText_is_not_the_trimmed_walk :
  cellTextOf Samples.cell_two_runs = lit "ab"
  /\ spec_cellText Samples.cell_two_runs = lit "a b"
  /\ cellTextOf Samples.cell_two_runs <> spec_cellText Samples.cell_two_runs.
Proof.
  split; [reflexivity|]. split; [reflexivity|].
  vm_compute. discriminate.
Qed.

(** A table nested in a cell is passed over by the loops, where the walk
    of the specification descends into it. *)
Lemma cellText_skips_nested_table :
  cellTextOf Samples.cell_nested = []
  /\ spec_cellText Samples.cell_nested
     = lit "[TABLE]" ++ nl ++ lit "x" ++ nl ++ lit "[/TABLE]".
Proof. split; reflexivity. Qed.

(** The table of section 8: rows [a, b] and [c, d]. *)
Lemma extractText_doc_table :
  extractText Samples.doc_table
  = lit "[TABLE]" ++ nl ++ lit "a | b" ++ nl ++ lit "c | d" ++ nl
    ++ lit "[/TABLE]".
Proof. reflexivity. Qed.

(** ** No dereference of the extraction throws *)

Lemma forOf_pure {A S} (step : S -> A -> Checked.Outcome S) (f : S -> A -> S) :
  (forall s x, step s x = inr (f s x)) ->
  forall l s, Checked.forOf step l s = inr (fold_left f l s).
Proof.
  intros Hstep l; induction l as [|x l IH]; intros s; simpl.
  - reflexivity.
  - rewrite Hstep. apply IH.
Qed.

Lemma checked_runs_id (acc : JSString) (els : list ParagraphElement) :
  Checked.runs id acc els = inr (paragraphRuns acc els).
Proof.
  apply forOf_pure. intros s [[[[[|c t]|]]|]]; reflexivity.
Qed.

Lemma checked_runs_trim (acc : JSString) (els : list ParagraphElement) :
  Checked.runs trim acc els = inr (cellRuns acc els).
Proof.
  apply forOf_pure. intros s [[[[[|c t]|]]|]]; reflexivity.
Qed.

Lemma checked_paragraph_id (acc : JSString) (b : StructuralElement) :
  Checked.paragraphOf id acc b
  = inr match paragraph b ≫= elements with
        | Some els => paragraphRuns acc els
        | None => acc
        end.
Proof.
  destruct b as [[[[els|]]|] t e]; try reflexivity.
  apply checked_runs_id.
Qed.

Lemma checked_paragraph_trim (acc : JSString) (b : StructuralElement) :
  Checked.paragraphOf trim acc b
  = inr match paragraph b ≫= elements with
        | Some els => cellRuns acc els
        | None => acc
        end.
Proof.
  destruct b as [[[[els|]]|] t e]; try reflexivity.
  apply checked_runs_trim.
Qed.

Lemma checked_cellTextOf (cell : TableCell) :
  Checked.cellTextOf cell = inr (cellTextOf cell).
Proof. apply forOf_pure. exact checked_paragraph_trim. Qed.

Lemma checked_rowCells (row : TableRow) :
  Checked.rowCells row = inr (rowCells row).
Proof.
  apply forOf_pure. intros cells cell.
  now rewrite checked_cellTextOf.
Qed.

Lemma checked_tableOf (content : JSString) (b : StructuralElement) :
  Checked.tableOf content b
  = inr match table b with
        | Some tbl => tableInto content tbl
        | None => content
        end.
Proof.
  unfold Checked.tableOf.
  destruct (table b) as [tbl|]; simpl; [|reflexivity].
  rewrite (forOf_pure _ (fun content row =>
             content ++ join (lit " | ") (rowCells row) ++ nl)).
  - reflexivity.
  - intros s row. now rewrite checked_rowCells.
Qed.

Lemma checked_extractText (doc : Document) :
  Checked.extractText doc = inr (extractText doc).
Proof.
  unfold Checked.extractText, extractText.
  destruct doc as [i t [[[els|]]|]]; try reflexivity.
  simpl. rewrite (forOf_pure _ elementInto); [reflexivity|].
  intros s b. rewrite checked_paragraph_id. simpl.
  apply checked_tableOf.
Qed.

(** C9. Text extraction never throws: with every dereference of the source
    written out, it returns, for every document, the text the loops
    compute; and a missing field counts as an empty one: no body, no block
    list or an empty one give the empty text, a block with neither
    paragraph nor table, a paragraph without runs, a run without text run
    or with no or empty text add nothing, and missing rows, cells or cell
    blocks are read as empty lists (a table without rows is its two marker
    lines). *)
Theorem extractText_never_throws :
  (forall doc, Checked.extractText doc = inr (extractText doc))
  /\ (forall i t, extractText (mkDocument i t None) = [])
  /\ (forall i t, extractText (mkDocument i t (Some (mkBody None))) = [])
  /\ (forall i t, extractText (mkDocument i t (Some (mkBody (Some [])))) = [])
  /\ (forall content e,
        elementInto content (mkStructuralElement None None e) = content)
  /\ (forall content t e,
        elementInto content (mkStructuralElement (Some (mkParagraph None)) t e)
        = elementInto content (mkStructuralElement None t e))
  /\ (forall content els,
        paragraphRuns content (mkParagraphElement None :: els)
        = paragraphRuns content els)
  /\ (forall content els,
        paragraphRuns content
          (mkParagraphElement (Some (mkTextRun None)) :: els)
        = paragraphRuns content els)
  /\ (forall content els,
        paragraphRuns content
          (mkParagraphElement (Some (mkTextRun (Some []))) :: els)
        = paragraphRuns content els)
  /\ (forall content,
        tableInto content (mkTable None) = tableInto content (mkTable (Some []))
        /\ tableInto content (mkTable None)
           = content ++ lit "[TABLE]" ++ nl ++ lit "[/TABLE]" ++ nl)
  /\ rowCells (mkTableRow None) = []
  /\ cellTextOf (mkTableCell None) = [].
Proof.
  split; [exact checked_extractText|].
  repeat split; try reflexivity.
  unfold tableInto. simpl fold_left. now rewrite <- !app_assoc.
Qed.

(** ** Index resolution *)

Lemma or_num_present (e d : Z) : e <> 0 -> or_num (Some e) d = e.
Proof. destruct e; simpl; congruence. Qed.

Lemma endOfDocumentIndex_last (doc : Document)
    (blocks : list StructuralElement) (b : StructuralElement) :
  body doc ≫= body_content = Some (blocks ++ [b]) ->
  endOfDocumentIndex doc = or_num (endIndex b) 1.
Proof.
  intros Htree. unfold endOfDocumentIndex. rewrite Htree. simpl.
  now rewrite last_snoc.
Qed.

(** C3 (as amended). For a tree whose last top-level block carries an
    [endIndex] of at least 2, the end-of-document index is that [endIndex],
    and the append insertion index is the end-of-document index minus 1 and
    at least 1. The end-of-document index is 1 for an empty tree, and also
    for a tree whose last block carries no [endIndex], or the [endIndex] 0;
    the append insertion index is then 0. *)
Theorem appendInsertionIndex_of_tree (doc : Document)
    (blocks : list StructuralElement) (b : StructuralElement) (e : Z) :
  body doc ≫= body_content = Some (blocks ++ [b]) ->
  endIndex b = Some e ->
  2 <= e ->
  endOfDocumentIndex doc = e
  /\ appendInsertionIndex doc = endOfDocumentIndex doc - 1
  /\ 1 <= appendInsertionIndex doc
  /\ (forall i t,
        endOfDocumentIndex (mkDocument i t (Some (mkBody (Some [])))) = 1
        /\ appendInsertionIndex (mkDocument i t (Some (mkBody (Some [])))) = 0)
  /\ (forall i t bs p tb last_end,
        last_end = None \/ last_end = Some 0 ->
        endOfDocumentIndex
          (mkDocument i t
             (Some (mkBody (Some (bs ++ [mkStructuralElement p tb last_end])))))
        = 1
        /\ appendInsertionIndex
             (mkDocument i t
                (Some (mkBody
                   (Some (bs ++ [mkStructuralElement p tb last_end])))))
           = 0).
Proof.
  intros Htree He Hge.
  assert (Hend : endOfDocumentIndex doc = e).
  { rewrite (endOfDocumentIndex_last doc blocks b Htree), He.
    apply or_num_present. lia. }
  unfold appendInsertionIndex. rewrite Hend.
  split; [reflexivity|]. split; [reflexivity|]. split; [lia|].
  split; [intros i t; split; reflexivity|].
  intros i t bs p tb last_end Hlast.
  rewrite (endOfDocumentIndex_last _ bs (mkStructuralElement p tb last_end))
    by reflexivity.
  destruct Hlast as [-> | ->]; split; reflexivity.
Qed.

Lemma appendInsertionIndex_of_tree_witness :
  endOfDocumentIndex Samples.doc_hello = 7
  /\ appendInsertionIndex Samples.doc_hello
     = endOfDocumentIndex Samples.doc_hello - 1
  /\ 1 <= appendInsertionIndex Samples.doc_hello
  /\ appendInsertionIndex
       (Samples.doc_of [Samples.para ["Hello"%string] (Some 0)]) = 0.
Proof.
  destruct (appendInsertionIndex_of_tree Samples.doc_hello []
              (Samples.para ["Hello"%string] (Some 7)) 7)
    as (H1 & H2 & H3 & _ & Hzero).
  - reflexivity.
  - reflexivity.
  - lia.
  - split; [exact H1|]. split; [exact H2|]. split; [exact H3|].
    apply (Hzero (Some (lit "doc-1")) (Some (lit "Notes")) []
             (Some (mkParagraph (Some [Samples.run "Hello"%string]))) None
             (Some 0)).
    right. reflexivity.
Defined.

(** C3 (as stated) fails: a tree of one paragraph that carries no
    [endIndex] is not empty, yet its end-of-document index is the fallback
    1 and its append insertion index is 0; the same holds of a tree whose
    last block ends at index 1. *)
Lemma appendInsertionIndex_below_one :
  body Samples.doc_no_endIndex ≫= body_content
    = Some [Samples.para ["Hello"%string] None]
  /\ endOfDocumentIndex Samples.doc_no_endIndex = 1
  /\ appendInsertionIndex Samples.doc_no_endIndex = 0
  /\ ~ 1 <= appendInsertionIndex Samples.doc_no_endIndex
  /\ ~ 1 <= appendInsertionIndex Samples.doc_endIndex_one.
Proof.
  split; [reflexivity|]. split; [reflexivity|]. split; [reflexivity|].
  split.
  - change (~ 1 <= 0). lia.
  - change (~ 1 <= 0). lia.
Qed.

(** ** Runs of the service *)

Lemma len_app (s t : JSString) : len (s ++ t) = len s + len t.
Proof. unfold len. rewrite length_app. lia. Qed.

Lemma insertionIndices_app (cs ds : list Call) :
  insertionIndices (cs ++ ds) = insertionIndices cs ++ insertionIndices ds.
Proof. unfold insertionIndices. apply flat_map_app. Qed.

Lemma submissions_app (cs ds : list Call) :
  submissions (cs ++ ds) = submissions cs ++ submissions ds.
Proof. unfold submissions. apply List.filter_app. Qed.

Section Runs.

Context {Remote : Type} `{DocsBackend Remote}.

Lemma client_getDocument_world (id : JSString) (w : World Remote) :
  (client_getDocument id w).2
  = mkWorld (documents_get id (remote w)).2 (calls w ++ [CallGet id]).
Proof.
  unfold client_getDocument.
  destruct (documents_get id (remote w)) as [[msg|doc] rem]; reflexivity.
Qed.

Lemma client_batchUpdateDocument_world (id : JSString)
    (rs : list Request) (w : World Remote) :
  (client_batchUpdateDocument id rs w).2
  = mkWorld (documents_batchUpdate id rs (remote w)).2
      (calls w ++ [CallBatchUpdate id rs]).
Proof.
  unfold client_batchUpdateDocument.
  destruct (documents_batchUpdate id rs (remote w)) as [[msg|resp] rem];
    reflexivity.
Qed.

(** A read settles in the world the client call left, fulfilled or not. *)
Lemma getDocument_world (id : JSString) (w : World Remote) :
  (getDocument id w).2
  = mkWorld (documents_get id (remote w)).2 (calls w ++ [CallGet id]).
Proof.
  rewrite <- client_getDocument_world.
  unfold getDocument, bind.
  destruct (client_getDocument id w) as [[e|doc] w']; [reflexivity|].
  destruct (negb (truthy (default [] (documentId doc)))); reflexivity.
Qed.

Lemma getDocument_calls (id : JSString) (w w1 : World Remote)
    (r : GDriveMCPError + Document) :
  getDocument id w = (r, w1) -> calls w1 = calls w ++ [CallGet id].
Proof.
  intros Hget. pose proof (getDocument_world id w) as Hw.
  rewrite Hget in Hw. simpl in Hw. now rewrite Hw.
Qed.

(** The tail shared by the mutating methods: submit one batch, drop the
    response. *)
Lemma submit_world (id : JSString) (rs : list Request) (w : World Remote) :
  ((await _ <- client_batchUpdateDocument id rs; ret tt) w).2
  = mkWorld (documents_batchUpdate id rs (remote w)).2
      (calls w ++ [CallBatchUpdate id rs]).
Proof.
  rewrite <- client_batchUpdateDocument_world. unfold bind.
  destruct (client_batchUpdateDocument id rs w) as [[e|resp] w'];
    reflexivity.
Qed.

Lemma appendText_run (id text : JSString) (w w1 : World Remote)
    (doc : Document) :
  getDocument id w = (inr doc, w1) ->
  text <> [] ->
  appendText id text w
  = (await _ <- client_batchUpdateDocument id
                  [InsertText (appendInsertionIndex doc) text];
     ret tt) w1.
Proof.
  intros Hget Htext. unfold appendText.
  destruct text as [|c text]; [congruence|]. simpl.
  unfold bind at 1. rewrite Hget. reflexivity.
Qed.

Lemma addHeading_run (id text : JSString) (lvl : HeadingLevel)
    (w w1 : World Remote) (doc : Document) :
  getDocument id w = (inr doc, w1) ->
  addHeading id text lvl w
  = (await _ <- client_batchUpdateDocument id
                  [InsertText (appendInsertionIndex doc) (text ++ nl);
                   UpdateParagraphStyle (appendInsertionIndex doc)
                     (appendInsertionIndex doc + len (text ++ nl))
                     lvl (lit "namedStyleType")];
     ret tt) w1.
Proof.
  intros Hget. unfold addHeading.
  unfold bind at 1. rewrite Hget. reflexivity.
Qed.

Lemma addBulletList_run (id : JSString) (items : list JSString)
    (w w1 : World Remote) (doc : Document) :
  getDocument id w = (inr doc, w1) ->
  items <> [] ->
  addBulletList id items w
  = (await _ <- client_batchUpdateDocument id
                  [InsertText (appendInsertionIndex doc) (join nl items ++ nl);
                   CreateParagraphBullets (appendInsertionIndex doc)
                     (appendInsertionIndex doc + len (join nl items ++ nl))
                     (lit "BULLET_DISC_CIRCLE_SQUARE")];
     ret tt) w1.
Proof.
  intros Hget Hitems. unfold addBulletList.
  destruct items as [|x items]; [congruence|].
  change (length (x :: items) =? 0)%nat with false. cbv iota.
  unfold bind at 1. rewrite Hget. reflexivity.
Qed.

Lemma clearDocument_run (id : JSString) (w w1 : World Remote)
    (doc : Document) :
  getDocument id w = (inr doc, w1) ->
  clearDocument id w
  = if 1 <? endOfDocumentIndex doc
    then (await _ <- client_batchUpdateDocument id
                       [DeleteContentRange 1 (endOfDocumentIndex doc - 1)];
          ret tt) w1
    else (inr tt, w1).
Proof.
  intros Hget. unfold clearDocument.
  unfold bind at 1. rewrite Hget.
  destruct (1 <? endOfDocumentIndex doc); reflexivity.
Qed.

End Runs.

(** ** The in-memory backend is atomic *)

#[global] Instance InMemory_atomic : AtomicBackend InMemory.Store.
Proof.
  split.
  - intros id s. simpl.
    destruct (InMemory.eqb_str id (InMemory.stored_id s)); reflexivity.
  - intros id rs s msg s'. simpl.
    destruct (InMemory.eqb_str id (InMemory.stored_id s));
      [|now intros [= _ <-]].
    destruct (InMemory.applyRequests (InMemory.stored_text s) rs)
      as [[text' replies]|]; [discriminate | now intros [= _ <-]].
Qed.

(** ** Empty inputs *)

Section EmptyInputs.

Context {Remote : Type} `{DocsBackend Remote}.

(** C7. Appending the empty text, and adding an empty bullet list, settle
    at once in the world they started from: no read, no submission, the
    backend untouched, and no error. *)
Theorem empty_append_and_empty_list_are_noops (id : JSString)
    (w : World Remote) :
  appendText id [] w = (inr tt, w)
  /\ addBulletList id [] w = (inr tt, w).
Proof. split; reflexivity. Qed.

(** C10. Inserting the empty text at an index, whatever the index, settles
    at once in the world it started from: no backend call, and no error. *)
Theorem empty_insert_is_noop (id : JSString) (index : Z) (w : World Remote) :
  insertText id [] index w = (inr tt, w).
Proof. reflexivity. Qed.

End EmptyInputs.

(** ** Replace, heading, append *)

Section Batches.

Context {Remote : Type} `{DocsBackend Remote}.

(** C8. Whatever the search text and the replacement, [replaceText] makes
    one client call, a batch of the single request [ReplaceAllText] with
    [matchCase] set; when the backend accepts the batch the method returns
    the count the first reply reports, 0 when it reports none, and when the
    backend rejects it the method fails with the client's error. *)
Theorem replaceText_one_case_sensitive_batch (id searchText replacement : JSString)
    (w : World Remote) :
  let batch := [ReplaceAllText searchText true replacement] in
  replaceText id searchText replacement w
  = (match (documents_batchUpdate id batch (remote w)).1 with
     | inr response => inr (default 0 (reportedCount response))
     | inl msg =>
         inl (createAPIError (lit "Failed to update document: " ++ msg))
     end,
     mkWorld (documents_batchUpdate id batch (remote w)).2
       (calls w ++ [CallBatchUpdate id batch])).
Proof.
  intros batch. unfold replaceText, bind, client_batchUpdateDocument.
  fold batch.
  destruct (documents_batchUpdate id batch (remote w)) as [[msg|response] rem];
    simpl; [reflexivity|].
  unfold reportedCount, ret.
  destruct (((replies response ≫= head) ≫= replaceAllText)
              ≫= occurrencesChanged) as [[|n|n]|]; reflexivity.
Qed.

(** C4. For a non-empty heading text and a document the read returns,
    [addHeading] makes, after the read, one client call: a batch of two
    requests, first the insertion of the text and a line feed at the append
    insertion index, then the paragraph style over the range from that
    index to that index plus the length of the text plus 1, which is the
    length of what was inserted. *)
Theorem addHeading_one_batch_of_two (id text : JSString) (lvl : HeadingLevel)
    (w w1 : World Remote) (doc : Document) :
  text <> [] ->
  getDocument id w = (inr doc, w1) ->
  let i := appendInsertionIndex doc in
  let batch :=
    [InsertText i (text ++ nl);
     UpdateParagraphStyle i (i + len text + 1) lvl (lit "namedStyleType")] in
  calls (addHeading id text lvl w).2
    = calls w ++ [CallGet id; CallBatchUpdate id batch]
  /\ submissions (calls (addHeading id text lvl w).2)
     = submissions (calls w) ++ [CallBatchUpdate id batch]
  /\ i + len text + 1 = i + len (text ++ nl).
Proof.
  intros _ Hget i batch.
  assert (Hlen : i + len text + 1 = i + len (text ++ nl)).
  { rewrite len_app. unfold nl, len. simpl. lia. }
  assert (Hcalls : calls (addHeading id text lvl w).2
                   = calls w ++ [CallGet id; CallBatchUpdate id batch]).
  { rewrite (addHeading_run id text lvl w w1 doc Hget), submit_world.
    simpl. rewrite (getDocument_calls id w w1 _ Hget), <- app_assoc.
    subst batch i. rewrite <- Hlen. reflexivity. }
  split; [exact Hcalls|]. split; [|exact Hlen].
  rewrite Hcalls, submissions_app. reflexivity.
Qed.

(** C1 (as amended). When the read returns a tree whose end-of-document
    index is 1, the append-style methods apply no floor: the one insertion
    each of them submits is at index 0, the end-of-document index minus
    1. *)
Theorem append_style_index_on_empty_tree (id : JSString)
    (w w1 : World Remote) (doc : Document) :
  getDocument id w = (inr doc, w1) ->
  endOfDocumentIndex doc = 1 ->
  (forall text, text <> [] ->
     insertionIndices (calls (appendText id text w).2)
     = insertionIndices (calls w) ++ [0])
  /\ (forall text lvl,
        insertionIndices (calls (addHeading id text lvl w).2)
        = insertionIndices (calls w) ++ [0])
  /\ (forall items, items <> [] ->
        insertionIndices (calls (addBulletList id items w).2)
        = insertionIndices (calls w) ++ [0]).
Proof.
  intros Hget Hend.
  assert (Hidx : appendInsertionIndex doc = 0)
    by (unfold appendInsertionIndex; lia).
  pose proof (getDocument_calls id w w1 _ Hget) as Hw1.
  split; [|split].
  - intros text Htext.
    rewrite (appendText_run id text w w1 doc Hget Htext), submit_world.
    simpl. rewrite Hw1, Hidx, !insertionIndices_app. simpl.
    now rewrite app_nil_r.
  - intros text lvl.
    rewrite (addHeading_run id text lvl w w1 doc Hget), submit_world.
    simpl. rewrite Hw1, Hidx, !insertionIndices_app. simpl.
    now rewrite app_nil_r.
  - intros items Hitems.
    rewrite (addBulletList_run id items w w1 doc Hget Hitems), submit_world.
    simpl. rewrite Hw1, Hidx, !insertionIndices_app. simpl.
    now rewrite app_nil_r.
Qed.

End Batches.

Lemma addHeading_one_batch_of_two_witness :
  let w := InMemory.start Samples.store_hello in
  calls (addHeading Samples.id1 (lit "Title") HEADING_1 w).2
  = [CallGet Samples.id1;
     CallBatchUpdate Samples.id1
       [InsertText 6 (lit "Title" ++ nl);
        UpdateParagraphStyle 6 12 HEADING_1 (lit "namedStyleType")]].
Proof.
  intros w.
  destruct (addHeading_one_batch_of_two Samples.id1 (lit "Title") HEADING_1
              w (getDocument Samples.id1 w).2
              (InMemory.render Samples.store_hello)) as (Hcalls & _).
  - discriminate.
  - reflexivity.
  - exact Hcalls.
Defined.

Lemma append_style_index_on_empty_tree_witness :
  let w := Fixed.start Samples.doc_empty in
  insertionIndices (calls (appendText Samples.id1 (lit "Hello") w).2) = [0]
  /\ insertionIndices
       (calls (addHeading Samples.id1 (lit "Title") HEADING_1 w).2) = [0]
  /\ insertionIndices
       (calls (addBulletList Samples.id1 [lit "x"; lit "y"] w).2) = [0].
Proof.
  intros w.
  destruct (append_style_index_on_empty_tree Samples.id1
              w (getDocument Samples.id1 w).2 Samples.doc_empty)
    as (Happend & Hheading & Hbullets).
  - reflexivity.
  - reflexivity.
  - split; [|split].
    + apply (Happend (lit "Hello")). discriminate.
    + apply (Hheading (lit "Title") HEADING_1).
    + apply (Hbullets [lit "x"; lit "y"]). discriminate.
Defined.

(** C1 (as stated) fails: on the empty tree, whose end-of-document index
    is 1, each of the three methods submits its insertion at index 0, which
    is less than 1. *)
Lemma append_style_index_below_floor :
  let w := Fixed.start Samples.doc_empty in
  getDocument Samples.id1 w
    = (inr Samples.doc_empty, mkWorld Samples.doc_empty [CallGet Samples.id1])
  /\ endOfDocumentIndex Samples.doc_empty = 1
  /\ submissions (calls (appendText Samples.id1 (lit "Hello") w).2)
     = [CallBatchUpdate Samples.id1 [InsertText 0 (lit "Hello")]]
  /\ insertionIndices
       (calls (addHeading Samples.id1 (lit "Title") HEADING_1 w).2) = [0]
  /\ insertionIndices
       (calls (addBulletList Samples.id1 [lit "x"; lit "y"] w).2) = [0]
  /\ ~ Forall (Z.le 1)
         (insertionIndices (calls (appendText Samples.id1 (lit "Hello") w).2)).
Proof.
  intros w. repeat (split; [reflexivity|]).
  change (~ Forall (Z.le 1) [0]).
  intros Hall. apply Forall_inv in Hall. lia.
Qed.

(** ** Clear and update *)

Section ClearAndUpdate.

Context {Remote : Type} {backend : DocsBackend Remote}
  {atomic : AtomicBackend Remote}.

Lemma getDocument_remote (id : JSString) (w : World Remote) :
  remote (getDocument id w).2 = remote w.
Proof. rewrite getDocument_world. simpl. apply get_readonly. Qed.

Lemma submit_failure_remote (id : JSString) (rs : list Request)
    (w w2 : World Remote) (e : GDriveMCPError) :
  (await _ <- client_batchUpdateDocument id rs; ret tt) w = (inl e, w2) ->
  remote w2 = remote w.
Proof.
  unfold bind, client_batchUpdateDocument.
  destruct (documents_batchUpdate id rs (remote w)) as [[msg|resp] rem] eqn:E;
    simpl; [|discriminate].
  intros [= _ <-]. simpl. exact (batchUpdate_atomic _ _ _ _ _ E).
Qed.

Lemma appendText_failure_remote (id text : JSString) (w1 w2 : World Remote)
    (e : GDriveMCPError) :
  appendText id text w1 = (inl e, w2) -> remote w2 = remote w1.
Proof.
  destruct text as [|c text]; [discriminate|].
  destruct (getDocument id w1) as [[e'|doc] wa] eqn:Hget.
  - unfold appendText, bind. simpl. rewrite Hget. intros [= _ <-].
    rewrite <- (getDocument_remote id w1), Hget. reflexivity.
  - rewrite (appendText_run id (c :: text) w1 wa doc Hget) by discriminate.
    intros Hfail. rewrite (submit_failure_remote _ _ _ _ _ Hfail).
    rewrite <- (getDocument_remote id w1), Hget. reflexivity.
Qed.









End ClearAndUpdate.

(** ** The backends with a quota are atomic, and their deletions empty
    the document *)

Lemma InMemory_endOfDocumentIndex (s : InMemory.Store) :
  endOfDocumentIndex (InMemory.render s) = len (InMemory.stored_text s) + 2.
Proof.
  unfold endOfDocumentIndex, InMemory.render, InMemory.tree. simpl.
  apply or_num_present. unfold len. lia.
Qed.

Lemma InMemory_delete_all (text : JSString) :
  InMemory.applyRequests text [DeleteContentRange 1 (len text + 2 - 1)]
  = match text with
    | [] => None
    | _ :: _ => Some ([], [mkReply None])
    end.
Proof.
  unfold InMemory.applyRequests, InMemory.applyRequest, InMemory.in_text.
  destruct text as [|c text].
  - reflexivity.
  - replace ((1 <=? 1) && (1 <? len (c :: text) + 2 - 1)
             && (len (c :: text) + 2 - 1 <=? len (c :: text) + 1)) with true.
    + replace (Z.to_nat (len (c :: text) + 2 - 1 - 1))
        with (length (c :: text)) by (unfold len; lia).
      change (Z.to_nat (1 - 1)) with 0%nat.
      rewrite take_0, drop_all. reflexivity.
    + symmetry. unfold len. simpl length.
      rewrite !andb_true_iff. split; [split|];
        [reflexivity | apply Z.ltb_lt; lia | apply Z.leb_le; lia].
Qed.

#[global] Instance Fixed_atomic : AtomicBackend Document.
Proof.
  split.
  - intros id doc. reflexivity.
  - intros id rs doc msg doc'. discriminate.
Qed.

#[global] Instance Flaky_atomic : AtomicBackend Flaky.Store.
Proof.
  split.
  - intros id [s n]. simpl.
    destruct (InMemory.eqb_str id (InMemory.stored_id s)); reflexivity.
  - intros id rs [s n] msg r'. simpl.
    destruct n as [|n]; [now intros [= _ <-]|].
    destruct (InMemory.eqb_str id (InMemory.stored_id s));
      [|now intros [= _ <-]].
    destruct (InMemory.applyRequests (InMemory.stored_text s) rs)
      as [[text' replies]|]; [discriminate | now intros [= _ <-]].
Qed.

#[global] Instance Flaky_clearing : ClearingBackend Flaky.Store.
Proof.
  split. intros id [s n] doc response r'.
  cbn [documents_get documents_batchUpdate Flaky.backend InMemory.backend
       fst snd Flaky.store Flaky.accepts].
  destruct (InMemory.eqb_str id (InMemory.stored_id s)) eqn:Hid;
    cbn [fst]; [|discriminate].
  intros [= <-]. rewrite InMemory_endOfDocumentIndex.
  destruct n as [|n]; [discriminate|].
  rewrite InMemory_delete_all.
  destruct (InMemory.stored_text s) as [|c text]; [discriminate|].
  intros [= _ <-]. unfold reads_empty.
  cbn [documents_get Flaky.backend InMemory.backend fst snd Flaky.store
       InMemory.stored_id].
  rewrite Hid. eexists. split; reflexivity.
Qed.




(** ** Runs on the in-memory backend *)

(** Appending to a document that holds ["Hello"] inserts before the
    terminator of its last paragraph. *)
Lemma appendText_hello :
  let w := InMemory.start Samples.store_hello in
  calls (appendText Samples.id1 (lit " world") w).2
    = [CallGet Samples.id1;
       CallBatchUpdate Samples.id1 [InsertText 6 (lit " world")]]
  /\ InMemory.stored_text (remote (appendText Samples.id1 (lit " world") w).2)
     = lit "Hello world".
Proof. split; reflexivity. Qed.

(** Replacing ["l"] in ["Hello"] reports two occurrences. *)
Lemma replaceText_hello :
  let w := InMemory.start Samples.store_hello in
  (replaceText Samples.id1 (lit "l") (lit "L") w).1 = inr 2
  /\ InMemory.stored_text
       (remote (replaceText Samples.id1 (lit "l") (lit "L") w).2)
     = lit "HeLLo".
Proof. split; reflexivity. Qed.

(** Reading a document that does not exist fails, and so does every method
    that reads first; nothing is submitted. *)
Lemma addHeading_unknown_document :
  let w := InMemory.start Samples.store_hello in
  (addHeading (lit "other") (lit "Title") HEADING_1 w).1
    = inl (createAPIError
             (lit "Failed to get document: "
              ++ lit "Requested entity was not found."))
  /\ submissions (calls (addHeading (lit "other") (lit "Title") HEADING_1 w).2)
     = [].
Proof. split; reflexivity. Qed.

(** * Further properties of the service *)

(** ** The extracted text is trimmed *)

Lemma trimStart_head (s : JSString) (c : N) (r : JSString) :
  trimStart s = c :: r -> is_space c = false.
Proof.
  induction s as [|x s IH]; simpl; [discriminate|].
  destruct (is_space x) eqn:Hx; [exact IH|].
  intros [= <- _]. exact Hx.
Qed.

Lemma trimStart_fixed (c : N) (r : JSString) :
  is_space c = false -> trimStart (c :: r) = c :: r.
Proof. intros Hc. simpl. now rewrite Hc. Qed.

Lemma trimStart_snoc (l : JSString) (c : N) :
  is_space c = false -> trimStart (l ++ [c]) = trimStart l ++ [c].
Proof.
  intros Hc. induction l as [|x l IH]; simpl.
  - now rewrite Hc.
  - destruct (is_space x); [exact IH | reflexivity].
Qed.

Lemma last_rev_head {A} (l : list A) : last (rev l) = head l.
Proof. destruct l as [|x l]; simpl; [reflexivity | apply last_snoc]. Qed.

Lemma trimEnd_cons (c : N) (r : JSString) :
  is_space c = false -> trimEnd (c :: r) = c :: rev (trimStart (rev r)).
Proof.
  intros Hc. unfold trimEnd. simpl rev.
  rewrite (trimStart_snoc _ c Hc), rev_app_distr. reflexivity.
Qed.

Lemma trim_trimmed (s : JSString) : trimmed (trim s).
Proof.
  unfold trim. split.
  - intros c r. destruct (trimStart s) as [|c0 r0] eqn:Hs; [discriminate|].
    pose proof (trimStart_head s c0 r0 Hs) as Hc0.
    rewrite (trimEnd_cons c0 r0 Hc0). now intros [= <- _].
  - intros c. unfold trimEnd. rewrite last_rev_head.
    destruct (trimStart (rev (trimStart s))) as [|d r] eqn:Ht; [discriminate|].
    intros [= <-]. exact (trimStart_head _ _ _ Ht).
Qed.

Lemma trim_of_trimmed (s : JSString) : trimmed s -> trim s = s.
Proof.
  intros [Hhead Hlast]. unfold trim.
  assert (Hs : trimStart s = s).
  { destruct s as [|c r]; [reflexivity|].
    apply trimStart_fixed. exact (Hhead c r eq_refl). }
  rewrite Hs. unfold trimEnd.
  assert (Hr : trimStart (rev s) = rev s).
  { destruct (rev s) as [|d t] eqn:Hrev; [reflexivity|].
    apply trimStart_fixed. apply Hlast.
    rewrite <- (rev_involutive s), Hrev. exact (last_rev_head (d :: t)). }
  rewrite Hr. apply rev_involutive.
Qed.

(** X4. The content [readDocument] returns never starts or ends with white
    space, whatever the document, and trimming it again changes nothing. *)
Theorem extractText_is_trimmed (doc : Document) :
  trimmed (extractText doc)
  /\ trim (extractText doc) = extractText doc.
Proof.
  assert (Ht : trimmed (extractText doc)) by apply trim_trimmed.
  split; [exact Ht | exact (trim_of_trimmed _ Ht)].
Qed.

(** ** Reading a document *)

Section Reading.

Context {Remote : Type} `{DocsBackend Remote}.

(** X1. [getDocument] makes one client call, the read, and settles in one of
    three ways: the backend fails and the error is an [API_ERROR] whose
    message is the backend's behind ["Failed to get document: "]; the
    backend answers with a document that has no [documentId], or an empty
    one, and the error is a [NOT_FOUND] that names the requested id; or the
    document is returned as it came. *)
Theorem getDocument_outcomes (id : JSString) (w : World Remote) :
  getDocument id w
  = (match (documents_get id (remote w)).1 with
     | inl msg =>
         inl (mkError (lit "Failed to get document: " ++ msg) API_ERROR)
     | inr doc =>
         match documentId doc with
         | Some (c :: s) => inr doc
         | _ => inl (mkError (lit "Document not found: " ++ id) NOT_FOUND)
         end
     end,
     mkWorld (documents_get id (remote w)).2 (calls w ++ [CallGet id])).
Proof.
  unfold getDocument, bind, client_getDocument.
  destruct (documents_get id (remote w)) as [[msg|doc] rem]; simpl;
    [reflexivity|].
  destruct (documentId doc) as [[|c s]|]; reflexivity.
Qed.

(** X2. When the read of the document fails, every method that reads first
    fails with the error of the read, in the world the read left: nothing
    is submitted. *)
Theorem failed_read_stops_every_method (id : JSString) (w w1 : World Remote)
    (e : GDriveMCPError) :
  getDocument id w = (inl e, w1) ->
  readDocument id w = (inl e, w1)
  /\ (forall text, text <> [] -> appendText id text w = (inl e, w1))
  /\ clearDocument id w = (inl e, w1)
  /\ (forall content, updateDocument id content w = (inl e, w1))
  /\ (forall text lvl, addHeading id text lvl w = (inl e, w1))
  /\ (forall items, items <> [] -> addBulletList id items w = (inl e, w1))
  /\ submissions (calls w1) = submissions (calls w).
Proof.
  intros Hget.
  assert (Hclear : clearDocument id w = (inl e, w1))
    by (unfold clearDocument, bind; now rewrite Hget).
  repeat split.
  - unfold readDocument, bind. now rewrite Hget.
  - intros [|c text] Htext; [congruence|].
    unfold appendText, bind. simpl. now rewrite Hget.
  - exact Hclear.
  - intros content. unfold updateDocument, bind. now rewrite Hclear.
  - intros text lvl. unfold addHeading, bind. now rewrite Hget.
  - intros [|x items] Hitems; [congruence|].
    unfold addBulletList, bind. simpl. now rewrite Hget.
  - rewrite (getDocument_calls id w w1 _ Hget), submissions_app. simpl.
    now rewrite app_nil_r.
Qed.

(** X3. [readDocument] makes one client call, the read, and submits
    nothing; when the read succeeds it succeeds, with the extracted text and
    the title of the document, or ["Untitled"] when the document has no
    title or an empty one. *)
Theorem readDocument_reads_once (id : JSString) (w : World Remote) :
  calls (readDocument id w).2 = calls w ++ [CallGet id]
  /\ submissions (calls (readDocument id w).2) = submissions (calls w)
  /\ (forall doc w1,
        getDocument id w = (inr doc, w1) ->
        readDocument id w
        = (inr (match title doc with
                | Some (c :: s) => c :: s
                | _ => lit "Untitled"
                end, extractText doc), w1)).
Proof.
  assert (Hcalls : calls (readDocument id w).2 = calls w ++ [CallGet id]).
  { unfold readDocument, bind.
    destruct (getDocument id w) as [[e|doc] w1] eqn:Hget; simpl;
      exact (getDocument_calls id w w1 _ Hget). }
  split; [exact Hcalls|]. split.
  - rewrite Hcalls, submissions_app. simpl. now rewrite app_nil_r.
  - intros doc w1 Hget. unfold readDocument, bind. rewrite Hget.
    reflexivity.
Qed.

End Reading.

Lemma failed_read_stops_every_method_witness :
  let w := InMemory.start Samples.store_hello in
  let e := createAPIError
             (lit "Failed to get document: "
              ++ lit "Requested entity was not found.") in
  clearDocument (lit "other") w = (inl e, (getDocument (lit "other") w).2)
  /\ appendText (lit "other") (lit "x") w
     = (inl e, (getDocument (lit "other") w).2)
  /\ submissions (calls (getDocument (lit "other") w).2) = [].
Proof.
  intros w e.
  destruct (failed_read_stops_every_method (lit "other") w
              (getDocument (lit "other") w).2 e)
    as (_ & Happend & Hclear & _ & _ & _ & Hsub).
  - reflexivity.
  - split; [exact Hclear|]. split; [|exact Hsub].
    apply Happend. discriminate.
Defined.

Lemma readDocument_reads_once_witness :
  let w := InMemory.start Samples.store_hello in
  readDocument Samples.id1 w
  = (inr (lit "Notes", lit "Hello"), (getDocument Samples.id1 w).2).
Proof.
  intros w.
  destruct (readDocument_reads_once Samples.id1 w) as (_ & _ & Hread).
  exact (Hread (InMemory.render Samples.store_hello)
           (getDocument Samples.id1 w).2 eq_refl).
Defined.

(** ** The batches of the mutating methods *)

Lemma linesLength_join (items : list JSString) :
  items <> [] -> len (join nl items ++ nl) = linesLength items.
Proof.
  intros Hne. rewrite len_app.
  induction items as [|x items IH]; [congruence|].
  destruct items as [|y items].
  - simpl. unfold nl, len. simpl. lia.
  - change (join nl (x :: y :: items)) with (x ++ nl ++ join nl (y :: items)).
    rewrite !len_app. simpl linesLength in *.
    assert (Hy : y :: items <> []) by discriminate.
    specialize (IH Hy). unfold nl, len in *. simpl length in *. lia.
Qed.

Section Edits.

Context {Remote : Type} `{DocsBackend Remote}.

(** X5. [insertText] with a non-empty text and [deleteContent] never read
    the document and check nothing: each makes one client call, a batch of
    the single request built from the indices as the caller gave them,
    whatever they are. *)
Theorem direct_edits_are_unchecked (id : JSString) (w : World Remote) :
  (forall text index, text <> [] ->
     calls (insertText id text index w).2
     = calls w ++ [CallBatchUpdate id [InsertText index text]])
  /\ (forall startIndex endIndex,
        calls (deleteContent id startIndex endIndex w).2
        = calls w ++ [CallBatchUpdate id
                        [DeleteContentRange startIndex endIndex]]).
Proof.
  split.
  - intros [|c text] index Htext; [congruence|].
    unfold insertText. change (negb (truthy (c :: text))) with false.
    cbv iota.
    now rewrite submit_world.
  - intros startIndex endIndex. unfold deleteContent.
    now rewrite submit_world.
Qed.

(** X6. [appendText] with a non-empty text, on a document the read
    returns, makes after the read one client call: a batch of the single
    insertion of the text at the end-of-document index minus 1; that index
    is at least 1 exactly when the end-of-document index is at least 2. *)
Theorem appendText_one_insertion (id text : JSString) (w w1 : World Remote)
    (doc : Document) :
  text <> [] ->
  getDocument id w = (inr doc, w1) ->
  calls (appendText id text w).2
  = calls w ++ [CallGet id;
                CallBatchUpdate id
                  [InsertText (endOfDocumentIndex doc - 1) text]]
  /\ (1 <= endOfDocumentIndex doc - 1 <-> 2 <= endOfDocumentIndex doc).
Proof.
  intros Htext Hget. split; [|lia].
  rewrite (appendText_run id text w w1 doc Hget Htext), submit_world. simpl.
  rewrite (getDocument_calls id w w1 _ Hget), <- app_assoc. reflexivity.
Qed.

(** X7. [addBulletList] with a non-empty list, on a document the read
    returns, makes after the read one client call: a batch of two requests,
    first the insertion, at the append insertion index, of the items each
    followed by a line feed, then the bullets over the range that starts at
    that index and whose length is the sum of the lengths of the items plus
    their number, which is the length of the inserted text. *)
Theorem addBulletList_one_batch_of_two (id : JSString) (items : list JSString)
    (w w1 : World Remote) (doc : Document) :
  items <> [] ->
  getDocument id w = (inr doc, w1) ->
  let i := appendInsertionIndex doc in
  calls (addBulletList id items w).2
  = calls w ++ [CallGet id;
                CallBatchUpdate id
                  [InsertText i (join nl items ++ nl);
                   CreateParagraphBullets i (i + linesLength items)
                     (lit "BULLET_DISC_CIRCLE_SQUARE")]]
  /\ join nl items ++ nl = concat (map (fun item => item ++ nl) items).
Proof.
  intros Hitems Hget i. split.
  - rewrite (addBulletList_run id items w w1 doc Hget Hitems), submit_world.
    simpl. rewrite (getDocument_calls id w w1 _ Hget), <- app_assoc.
    rewrite (linesLength_join items Hitems). reflexivity.
  - clear Hget. induction items as [|x items IH]; [congruence|].
    destruct items as [|y items].
    + simpl. now rewrite app_nil_r.
    + change (join nl (x :: y :: items))
        with (x ++ nl ++ join nl (y :: items)).
      rewrite <- !app_assoc. simpl concat. rewrite <- app_assoc.
      do 2 f_equal. apply IH. discriminate.
Qed.

(** X8. When [clearDocument] fails, so does [updateDocument], with the same
    error and in the same world, whatever the new content: the new content
    is never inserted. *)
Theorem failed_clear_stops_update (id content : JSString)
    (w w1 : World Remote) (e : GDriveMCPError) :
  clearDocument id w = (inl e, w1) ->
  updateDocument id content w = (inl e, w1)
  /\ insertionIndices (calls w1) = insertionIndices (calls w).
Proof.
  intros Hclear. split.
  - unfold updateDocument, bind. now rewrite Hclear.
  - destruct (getDocument id w) as [[e'|doc] wa] eqn:Hget.
    + assert (Hw : w1 = wa).
      { unfold clearDocument, bind in Hclear. rewrite Hget in Hclear.
        now injection Hclear. }
      subst wa. rewrite (getDocument_calls id w w1 _ Hget).
      rewrite insertionIndices_app. simpl. now rewrite app_nil_r.
    + pose proof (f_equal (fun r => calls r.2) Hclear) as Hcalls.
      simpl in Hcalls. rewrite <- Hcalls.
      rewrite (clearDocument_run id w wa doc Hget).
      destruct (1 <? endOfDocumentIndex doc).
      * rewrite submit_world. simpl.
        rewrite (getDocument_calls id w wa _ Hget), !insertionIndices_app.
        simpl. now rewrite !app_nil_r.
      * simpl. rewrite (getDocument_calls id w wa _ Hget).
        rewrite insertionIndices_app. simpl. now rewrite app_nil_r.
Qed.

End Edits.

Lemma direct_edits_are_unchecked_witness :
  let w := InMemory.start Samples.store_hello in
  calls (insertText Samples.id1 (lit "x") (-3) w).2
  = [CallBatchUpdate Samples.id1 [InsertText (-3) (lit "x")]].
Proof.
  intros w.
  destruct (direct_edits_are_unchecked Samples.id1 w) as (Hinsert & _).
  apply (Hinsert (lit "x") (-3)). discriminate.
Defined.

Lemma appendText_one_insertion_witness :
  let w := InMemory.start Samples.store_hello in
  calls (appendText Samples.id1 (lit " world") w).2
  = [CallGet Samples.id1;
     CallBatchUpdate Samples.id1 [InsertText 6 (lit " world")]].
Proof.
  intros w.
  destruct (appendText_one_insertion Samples.id1 (lit " world") w
              (getDocument Samples.id1 w).2
              (InMemory.render Samples.store_hello)) as (Hcalls & _).
  - discriminate.
  - reflexivity.
  - exact Hcalls.
Defined.

Lemma addBulletList_one_batch_of_two_witness :
  let w := InMemory.start Samples.store_hello in
  calls (addBulletList Samples.id1 [lit "ab"; lit "c"] w).2
  = [CallGet Samples.id1;
     CallBatchUpdate Samples.id1
       [InsertText 6 (lit "ab" ++ nl ++ lit "c" ++ nl);
        CreateParagraphBullets 6 11 (lit "BULLET_DISC_CIRCLE_SQUARE")]].
Proof.
  intros w.
  destruct (addBulletList_one_batch_of_two Samples.id1 [lit "ab"; lit "c"] w
              (getDocument Samples.id1 w).2
              (InMemory.render Samples.store_hello)) as (Hcalls & _).
  - discriminate.
  - reflexivity.
  - exact Hcalls.
Defined.

Lemma failed_clear_stops_update_witness :
  let w := InMemory.start Samples.store_hello in
  let e := createAPIError
             (lit "Failed to get document: "
              ++ lit "Requested entity was not found.") in
  updateDocument (lit "other") (lit "new") w
  = (inl e, (clearDocument (lit "other") w).2).
Proof.
  intros w e.
  destruct (failed_clear_stops_update (lit "other") (lit "new") w
              (clearDocument (lit "other") w).2 e) as (Hupdate & _).
  - reflexivity.
  - exact Hupdate.
Defined.

(** ** What the methods ask of the backend *)

Section Traces.

Context {Remote : Type} `{DocsBackend Remote}.

Lemma traces_ret {A} (id : JSString) (a : A) :
  traces (Remote := Remote) id 0 (ret a).
Proof.
  intros w. exists []. simpl. rewrite app_nil_r. repeat split; auto.
Qed.

Lemma traces_throw {A} (id : JSString) (e : GDriveMCPError) :
  traces (Remote := Remote) (A := A) id 0 (throw e).
Proof.
  intros w. exists []. simpl. rewrite app_nil_r. repeat split; auto.
Qed.

Lemma traces_weaken {A} (id : JSString) (n k : nat) (m : Async Remote A) :
  (n <= k)%nat -> traces id n m -> traces id k m.
Proof.
  intros Hle Hm w. destruct (Hm w) as (cs & Hcs & Hid & Hn).
  exists cs. repeat split; auto. lia.
Qed.

Lemma traces_bind {A B} (id : JSString) (n k : nat) (m : Async Remote A)
    (f : A -> Async Remote B) :
  traces id n m -> (forall a, traces id k (f a)) ->
  traces id (n + k) (bind m f).
Proof.
  intros Hm Hf w. destruct (Hm w) as (cs & Hcs & Hid & Hn).
  unfold bind. destruct (m w) as [[e|a] w1]; simpl in *.
  - exists cs. repeat split; auto. lia.
  - destruct (Hf a w1) as (ds & Hds & Hid' & Hk).
    exists (cs ++ ds). repeat split.
    + rewrite Hds, Hcs, <- app_assoc. reflexivity.
    + apply Forall_app. split; assumption.
    + rewrite submissions_app, length_app. lia.
Qed.

Lemma traces_client_get (id : JSString) :
  traces id 0 (client_getDocument id).
Proof.
  intros w. exists [CallGet id]. rewrite client_getDocument_world. simpl.
  repeat split; auto.
Qed.

Lemma traces_client_batch (id : JSString) (rs : list Request) :
  traces id 1 (client_batchUpdateDocument id rs).
Proof.
  intros w. exists [CallBatchUpdate id rs].
  rewrite client_batchUpdateDocument_world. simpl.
  repeat split; auto.
Qed.

Lemma traces_getDocument (id : JSString) : traces id 0 (getDocument id).
Proof.
  unfold getDocument.
  apply (traces_bind id 0 0); [apply traces_client_get|].
  intros doc.
  destruct (negb (truthy (default [] (documentId doc))));
    [apply traces_throw | apply traces_ret].
Qed.

Lemma traces_submit (id : JSString) (rs : list Request) :
  traces id 1 (await _ <- client_batchUpdateDocument id rs; ret tt).
Proof.
  apply (traces_bind id 1 0); [apply traces_client_batch|].
  intros _. apply traces_ret.
Qed.

Lemma traces_appendText (id text : JSString) :
  traces id 1 (appendText id text).
Proof.
  unfold appendText. destruct (negb (truthy text)).
  - apply (traces_weaken id 0); [lia | apply traces_ret].
  - apply (traces_bind id 0 1); [apply traces_getDocument|].
    intros doc. apply traces_submit.
Qed.

Lemma traces_clearDocument (id : JSString) : traces id 1 (clearDocument id).
Proof.
  unfold clearDocument.
  apply (traces_bind id 0 1); [apply traces_getDocument|].
  intros doc. destruct (1 <? endOfDocumentIndex doc).
  - apply traces_submit.
  - apply (traces_weaken id 0); [lia | apply traces_ret].
Qed.

(** X9. Every method only adds to the call log, every call it adds
    addresses the document it was given, and the submissions among them
    are at most: none for [getDocument] and [readDocument], two for
    [updateDocument], one for each of the others. *)
Theorem methods_call_only_their_document (id : JSString) :
  traces id 0 (getDocument id)
  /\ traces id 0 (readDocument id)
  /\ (forall text, traces id 1 (appendText id text))
  /\ (forall text index, traces id 1 (insertText id text index))
  /\ (forall searchText replacement,
        traces id 1 (replaceText id searchText replacement))
  /\ (forall startIndex endIndex,
        traces id 1 (deleteContent id startIndex endIndex))
  /\ traces id 1 (clearDocument id)
  /\ (forall content, traces id 2 (updateDocument id content))
  /\ (forall text lvl, traces id 1 (addHeading id text lvl))
  /\ (forall items, traces id 1 (addBulletList id items)).
Proof.
  split; [apply traces_getDocument|].
  split.
  { unfold readDocument.
    apply (traces_bind id 0 0); [apply traces_getDocument|].
    intros doc. apply traces_ret. }
  split; [apply traces_appendText|].
  split.
  { intros text index. unfold insertText. destruct (negb (truthy text)).
    - apply (traces_weaken id 0); [lia | apply traces_ret].
    - apply traces_submit. }
  split.
  { intros searchText replacement. unfold replaceText.
    apply (traces_bind id 1 0); [apply traces_client_batch|].
    intros response. apply traces_ret. }
  split; [intros startIndex endIndex; apply traces_submit|].
  split; [apply traces_clearDocument|].
  split.
  { intros content. unfold updateDocument.
    apply (traces_bind id 1 1); [apply traces_clearDocument|].
    intros _. destruct (truthy content).
    - apply traces_appendText.
    - apply (traces_weaken id 0); [lia | apply traces_ret]. }
  split.
  { intros text lvl. unfold addHeading.
    apply (traces_bind id 0 1); [apply traces_getDocument|].
    intros doc. apply traces_submit. }
  intros items. unfold addBulletList.
  destruct (length items =? 0)%nat.
  - apply (traces_weaken id 0); [lia | apply traces_ret].
  - apply (traces_bind id 0 1); [apply traces_getDocument|].
    intros doc. apply traces_submit.
Qed.

End Traces.

(** ** Failure leaves the document as it was *)

Section Atomicity.

Context {Remote : Type} {backend : DocsBackend Remote}
  {atomic : AtomicBackend Remote}.

Lemma read_then_submit_failure (id : JSString) (rs : list Request)
    (w w1 w2 : World Remote) (doc : Document) (e : GDriveMCPError) :
  getDocument id w = (inr doc, w1) ->
  (await _ <- client_batchUpdateDocument id rs; ret tt) w1 = (inl e, w2) ->
  remote w2 = remote w.
Proof.
  intros Hget Hfail. rewrite (submit_failure_remote _ _ _ _ _ Hfail).
  rewrite <- (getDocument_remote id w), Hget. reflexivity.
Qed.

Lemma failed_read_remote (id : JSString) (w w1 : World Remote)
    (e : GDriveMCPError) :
  getDocument id w = (inl e, w1) -> remote w1 = remote w.
Proof.
  intros Hget. rewrite <- (getDocument_remote id w), Hget. reflexivity.
Qed.

(** X10. On a backend whose read changes nothing and whose batch is all or
    nothing, the reading methods never change the remote state, and each
    method that submits a single batch is all or nothing too: when it
    fails, the remote state is the one it started from. *)
Theorem failure_leaves_the_document_unchanged (id : JSString)
    (w w2 : World Remote) (e : GDriveMCPError) :
  read_only (getDocument id)
  /\ read_only (readDocument id)
  /\ (forall text, appendText id text w = (inl e, w2) -> remote w2 = remote w)
  /\ (forall text index,
        insertText id text index w = (inl e, w2) -> remote w2 = remote w)
  /\ (forall searchText replacement,
        replaceText id searchText replacement w = (inl e, w2) ->
        remote w2 = remote w)
  /\ (forall startIndex endIndex,
        deleteContent id startIndex endIndex w = (inl e, w2) ->
        remote w2 = remote w)
  /\ (clearDocument id w = (inl e, w2) -> remote w2 = remote w)
  /\ (forall text lvl,
        addHeading id text lvl w = (inl e, w2) -> remote w2 = remote w)
  /\ (forall items,
        addBulletList id items w = (inl e, w2) -> remote w2 = remote w).
Proof.
  split; [exact (getDocument_remote id)|].
  split.
  { intros w0. unfold readDocument, bind.
    pose proof (getDocument_remote id w0) as Hrem.
    destruct (getDocument id w0) as [[e0|doc] w1]; exact Hrem. }
  split; [intros text; apply appendText_failure_remote|].
  split.
  { intros [|c text] index; [discriminate|].
    unfold insertText. change (negb (truthy (c :: text))) with false.
    cbv iota. apply submit_failure_remote. }
  split.
  { intros searchText replacement. unfold replaceText, bind.
    destruct (client_batchUpdateDocument id
                [ReplaceAllText searchText true replacement] w)
      as [[e0|response] w1] eqn:Hcall; [|discriminate].
    intros [= _ <-].
    apply (submit_failure_remote id
             [ReplaceAllText searchText true replacement] w w1 e0).
    unfold bind. now rewrite Hcall. }
  split; [intros startIndex endIndex; apply submit_failure_remote|].
  split.
  { destruct (getDocument id w) as [[e0|doc] w1] eqn:Hget.
    - unfold clearDocument, bind. rewrite Hget. intros [= _ <-].
      exact (failed_read_remote id w w1 e0 Hget).
    - rewrite (clearDocument_run id w w1 doc Hget).
      destruct (1 <? endOfDocumentIndex doc); [|discriminate].
      apply (read_then_submit_failure id _ w w1 w2 doc e Hget). }
  split.
  { intros text lvl. destruct (getDocument id w) as [[e0|doc] w1] eqn:Hget.
    - unfold addHeading, bind. rewrite Hget. intros [= _ <-].
      exact (failed_read_remote id w w1 e0 Hget).
    - rewrite (addHeading_run id text lvl w w1 doc Hget).
      apply (read_then_submit_failure id _ w w1 w2 doc e Hget). }
  intros [|x items]; [discriminate|].
  destruct (getDocument id w) as [[e0|doc] w1] eqn:Hget.
  - unfold addBulletList.
    change (length (x :: items) =? 0)%nat with false. cbv iota.
    unfold bind at 1. rewrite Hget. intros [= _ <-].
    exact (failed_read_remote id w w1 e0 Hget).
  - rewrite (addBulletList_run id (x :: items) w w1 doc Hget) by discriminate.
    apply (read_then_submit_failure id _ w w1 w2 doc e Hget).
Qed.

End Atomicity.

Lemma failure_leaves_the_document_unchanged_witness :
  let w := InMemory.start Samples.store_hello in
  let w2 := (insertText Samples.id1 (lit "!") 99 w).2 in
  let e := createAPIError
             (lit "Failed to update document: " ++ lit "Invalid requests") in
  insertText Samples.id1 (lit "!") 99 w = (inl e, w2)
  /\ remote w2 = Samples.store_hello.
Proof.
  intros w w2 e.
  destruct (failure_leaves_the_document_unchanged Samples.id1 w w2 e)
    as (_ & _ & _ & Hinsert & _).
  split; [reflexivity|].
  exact (Hinsert (lit "!") 99 eq_refl).
Defined.

(** ** Creating, listing and exporting documents *)

Section DriveProperties.

Context {Remote : Type} `{DocsBackend Remote} `{DriveBackend Remote}.

Lemma client_createFile_run (metadata : DriveFile) (media : option Media)
    (s : Session Remote) :
  let fields := lit "id, name, mimeType, parents, webViewLink" in
  client_createFile metadata media s
  = (match (files_create metadata media fields (remote (docs s))).1 with
     | inr file => inr file
     | inl msg => inl (createAPIError (lit "Failed to create file: " ++ msg))
     end,
     mkSession
       (mkWorld (files_create metadata media fields (remote (docs s))).2
          (calls (docs s)))
       (driveCalls s ++ [CallCreate metadata media fields])).
Proof.
  intros fields. unfold client_createFile, driveCall. fold fields.
  destruct (files_create metadata media fields (remote (docs s)))
    as [[msg|file] rem]; reflexivity.
Qed.

Lemma create_then_append_run (metadata : DriveFile)
    (content : option JSString) (s : Session Remote) :
  let s1 := (client_createFile metadata None s).2 in
  let m :=
    await doc <== client_createFile metadata None;
    await _ <== (if truthy_opt content && truthy_opt (file_id doc)
                 then liftDocs (appendText (default [] (file_id doc))
                                  (default [] content))
                 else retD tt);
    retD doc in
  driveCalls (m s).2
  = driveCalls s
      ++ [CallCreate metadata None
            (lit "id, name, mimeType, parents, webViewLink")]
  /\ (forall e, (client_createFile metadata None s).1 = inl e ->
        m s = (inl e, s1))
  /\ (forall file, (client_createFile metadata None s).1 = inr file ->
        match content, file_id file with
        | Some (c :: text), Some (i :: id) =>
            m s
            = (match (appendText (i :: id) (c :: text) (docs s1)).1 with
               | inl e => inl e
               | inr _ => inr file
               end,
               mkSession (appendText (i :: id) (c :: text) (docs s1)).2
                 (driveCalls s1))
        | _, _ => m s = (inr file, s1)
        end).
Proof.
  intros s1 m. subst m s1. unfold bindD.
  pose proof (client_createFile_run metadata None s) as Hrun.
  cbv zeta in Hrun.
  destruct (client_createFile metadata None s) as [[e|file] s1];
    assert (Hlog : driveCalls s1
                   = driveCalls s
                       ++ [CallCreate metadata None
                             (lit "id, name, mimeType, parents, webViewLink")])
      by (injection Hrun as _ Hs1; rewrite Hs1; reflexivity);
    clear Hrun.
  - simpl. split; [exact Hlog|].
    split; [now intros e' [= <-] | discriminate].
  - simpl. split.
    + unfold liftDocs, retD.
      destruct content as [[|c text]|]; simpl; try exact Hlog;
        destruct (file_id file) as [[|i id]|]; simpl; try exact Hlog.
      destruct (appendText (i :: id) (c :: text) (docs s1)) as [[e|u] w];
        exact Hlog.
    + split; [discriminate|]. intros file' [= <-].
      unfold liftDocs, retD.
      destruct content as [[|c text]|]; simpl; try reflexivity;
        destruct (file_id file) as [[|i id]|]; simpl; try reflexivity.
      destruct (appendText (i :: id) (c :: text) (docs s1)) as [[e|u] w];
        reflexivity.
Qed.

(** X11. [createDocument] with an empty title fails with a
    [VALIDATION_ERROR] before any call. With a title it asks Drive once, to
    create a file with that name, the Docs MIME type, the parent folder
    when one is given and not empty, and no media. The content is appended,
    to the id Drive returned, only when the content and that id are both
    present and not empty; and when that append fails, [createDocument]
    fails with the error of the append although the file was created: no
    further Drive call is made. *)
Theorem createDocument_creates_then_appends (title : JSString)
    (content parentId : option JSString) (s : Session Remote) :
  (title = [] ->
     createDocument title content parentId s
     = (inl (mkError (lit "Document title is required") VALIDATION_ERROR), s))
  /\ (title <> [] ->
      let metadata :=
        mkDriveFile None (Some title) (Some DOCS_MIME_TYPE)
          match parentId with
          | Some (c :: p) => Some [c :: p]
          | _ => None
          end in
      let s1 := (client_createFile metadata None s).2 in
      driveCalls (createDocument title content parentId s).2
      = driveCalls s
          ++ [CallCreate metadata None
                (lit "id, name, mimeType, parents, webViewLink")]
      /\ (forall e, (client_createFile metadata None s).1 = inl e ->
            createDocument title content parentId s = (inl e, s1))
      /\ (forall file, (client_createFile metadata None s).1 = inr file ->
            match content, file_id file with
            | Some (c :: text), Some (i :: id) =>
                createDocument title content parentId s
                = (match (appendText (i :: id) (c :: text) (docs s1)).1 with
                   | inl e => inl e
                   | inr _ => inr file
                   end,
                   mkSession (appendText (i :: id) (c :: text) (docs s1)).2
                     (driveCalls s1))
            | _, _ =>
                createDocument title content parentId s = (inr file, s1)
            end)).
Proof.
  split; [intros ->; reflexivity|].
  intros Htitle metadata s1. subst s1 metadata.
  destruct title as [|t title]; [congruence|].
  unfold createDocument. change (negb (truthy (t :: title))) with false.
  destruct parentId as [[|c p]|]; cbv iota zeta;
    cbn [truthy_opt truthy from_option id];
    apply create_then_append_run.
Qed.

End DriveProperties.

Lemma createDocument_creates_then_appends_witness :
  let s := FlakyDrive.start Samples.store_hello 0 in
  let metadata :=
    mkDriveFile None (Some (lit "Plan")) (Some DOCS_MIME_TYPE) None in
  (createDocument (lit "Plan") (Some (lit "Hi")) None s).1
  = inl (createAPIError
           (lit "Failed to update document: " ++ lit "Quota exceeded"))
  /\ driveCalls (createDocument (lit "Plan") (Some (lit "Hi")) None s).2
     = [CallCreate metadata None
          (lit "id, name, mimeType, parents, webViewLink")]
  /\ Flaky.store
       (remote (docs (createDocument (lit "Plan") (Some (lit "Hi")) None s).2))
     = InMemory.mkStore (lit "doc-2") (lit "Plan") [].
Proof.
  intros s metadata.
  destruct (createDocument_creates_then_appends (lit "Plan")
              (Some (lit "Hi")) None s) as (_ & Hcreated).
  destruct Hcreated as (Hlog & _ & Hfile); [discriminate|].
  split; [|split; [exact Hlog|]].
  - rewrite (Hfile (mkDriveFile (Some (lit "doc-2")) (Some (lit "Plan"))
                      (Some DOCS_MIME_TYPE) None) eq_refl).
    reflexivity.
  - rewrite (Hfile (mkDriveFile (Some (lit "doc-2")) (Some (lit "Plan"))
                      (Some DOCS_MIME_TYPE) None) eq_refl).
    reflexivity.
Defined.

Section Listing.

Context {Remote : Type} `{DocsBackend Remote} `{DriveBackend Remote}.

Lemma client_listFiles_run (options : ListOptions) (s : Session Remote) :
  let params :=
    mkListParams (opt_query options)
      (or_num (opt_pageSize options) 100)
      (opt_pageToken options)
      (or_str (opt_fields options)
         (lit "nextPageToken, files(id, name, mimeType, parents, createdTime, modifiedTime, size, webViewLink, webContentLink, owners, shared, trashed)"))
      (or_str (opt_orderBy options) (lit "modifiedTime desc")) in
  client_listFiles options s
  = (match (files_list params (remote (docs s))).1 with
     | inr list => inr list
     | inl msg => inl (createAPIError (lit "Failed to list files: " ++ msg))
     end,
     mkSession (mkWorld (files_list params (remote (docs s))).2 (calls (docs s)))
       (driveCalls s ++ [CallList params])).
Proof.
  intros params. unfold client_listFiles, driveCall. fold params.
  destruct (files_list params (remote (docs s))) as [[msg|list] rem];
    reflexivity.
Qed.

Lemma list_then_files_run (query : JSString) (size : Z)
    (order : option JSString) (s : Session Remote) :
  let params :=
    mkListParams (Some query) (or_num (Some size) 100) None
      (lit "nextPageToken, files(id, name, mimeType, parents, createdTime, modifiedTime, size, webViewLink, webContentLink, owners, shared, trashed)")
      (or_str order (lit "modifiedTime desc")) in
  (await response <== client_listFiles
     (mkListOptions (Some query) (Some size) None None order);
   retD (default [] (files response))) s
  = (match (files_list params (remote (docs s))).1 with
     | inr list => inr (default [] (files list))
     | inl msg => inl (mkError (lit "Failed to list files: " ++ msg) API_ERROR)
     end,
     mkSession (mkWorld (files_list params (remote (docs s))).2 (calls (docs s)))
       (driveCalls s ++ [CallList params])).
Proof.
  intros params. unfold bindD. rewrite client_listFiles_run.
  cbn [opt_query opt_pageSize opt_pageToken opt_fields opt_orderBy].
  change (or_str None ?d) with d. fold params.
  destruct (files_list params (remote (docs s))) as [[msg|list] rem];
    reflexivity.
Qed.

(** X12. [listDocuments] and [searchDocuments] each ask Drive once, for a
    list that differs only in the query: both ask for the page size given,
    50 when it is omitted and 100 when it is 0, and both for the order
    ["modifiedTime desc"], which [searchDocuments] leaves to the client's
    default; the name searched for goes into the query as it is. Each
    returns the files of the answer, none when the answer has no file list,
    and fails with an [API_ERROR] when Drive fails. *)
Theorem listing_asks_drive_once (name : JSString) (maxResults : option Z)
    (s : Session Remote) :
  let params query :=
    mkListParams (Some query)
      match maxResults with
      | None => 50
      | Some 0 => 100
      | Some n => n
      end
      None
      (lit "nextPageToken, files(id, name, mimeType, parents, createdTime, modifiedTime, size, webViewLink, webContentLink, owners, shared, trashed)")
      (lit "modifiedTime desc") in
  let outcome query :=
    (match (files_list (params query) (remote (docs s))).1 with
     | inr list => inr (default [] (files list))
     | inl msg => inl (mkError (lit "Failed to list files: " ++ msg) API_ERROR)
     end,
     mkSession
       (mkWorld (files_list (params query) (remote (docs s))).2 (calls (docs s)))
       (driveCalls s ++ [CallList (params query)])) in
  listDocuments maxResults s
  = outcome (lit "mimeType = 'application/vnd.google-apps.document' and trashed = false")
  /\ searchDocuments name maxResults s
     = outcome (lit "name contains '" ++ name
                ++ lit "' and mimeType = 'application/vnd.google-apps.document' and trashed = false").
Proof.
  intros params outcome.
  assert (Hsize : or_num (Some (default 50 maxResults)) 100
                  = match maxResults with
                    | None => 50
                    | Some 0 => 100
                    | Some n => n
                    end)
    by (destruct maxResults as [[|n|n]|]; reflexivity).
  subst outcome params. cbv beta. rewrite <- Hsize. split.
  - unfold listDocuments. rewrite list_then_files_run. reflexivity.
  - unfold searchDocuments. rewrite list_then_files_run. reflexivity.
Qed.

End Listing.

(** * MIME types *)

(** ** The extension of a file name *)

Lemma lastIndexFrom_absent (c : N) (s : JSString) (i found : Z) :
  ~ In c s -> lastIndexFrom c s i found = found.
Proof.
  revert i found. induction s as [|x s IH]; intros i found Hnot; simpl.
  - reflexivity.
  - destruct (N.eqb_spec x c) as [->|Hne].
    + exfalso. apply Hnot. now left.
    + apply IH. intros Hin. apply Hnot. now right.
Qed.

Lemma lastIndexFrom_last (c : N) (pre t : JSString) (i found : Z) :
  ~ In c t ->
  lastIndexFrom c (pre ++ c :: t) i found = i + Z.of_nat (length pre).
Proof.
  intros Hnot. revert i found.
  induction pre as [|x pre IH]; intros i found; simpl app.
  - simpl. rewrite N.eqb_refl, (lastIndexFrom_absent c t _ _ Hnot). lia.
  - cbn [lastIndexFrom]. rewrite IH. simpl length. lia.
Qed.

Lemma last_occurrence (c : N) (s : JSString) :
  ~ In c s \/ exists pre t, s = pre ++ c :: t /\ ~ In c t.
Proof.
  induction s as [|x s IH].
  - left. intros [].
  - destruct IH as [Hnot | (pre & t & -> & Ht)].
    + destruct (N.eqb_spec x c) as [->|Hne].
      * right. exists [], s. split; [reflexivity | exact Hnot].
      * left. intros [Heq|Hin]; [congruence | exact (Hnot Hin)].
    + right. exists (x :: pre), t. split; [reflexivity | exact Ht].
Qed.

Lemma getExtension_no_dot (s : JSString) : ~ In dot s -> getExtension s = [].
Proof.
  intros Hnot. unfold getExtension, lastIndexOf.
  now rewrite (lastIndexFrom_absent dot s 0 (-1) Hnot).
Qed.

Lemma getExtension_leading_dot (s : JSString) :
  ~ In dot s -> getExtension (dot :: s) = [].
Proof.
  intros Hnot. unfold getExtension, lastIndexOf.
  change (dot :: s) with ([] ++ dot :: s).
  now rewrite (lastIndexFrom_last dot [] s 0 (-1) Hnot).
Qed.

Lemma getExtension_last_dot (stem ext : JSString) :
  stem <> [] -> ~ In dot ext ->
  getExtension (stem ++ dot :: ext) = dot :: ext.
Proof.
  intros Hstem Hnot. unfold getExtension, lastIndexOf.
  rewrite (lastIndexFrom_last dot stem ext 0 (-1) Hnot).
  destruct stem as [|x stem]; [congruence|].
  replace ((0 + Z.of_nat (length (x :: stem)) =? -1)
           || (0 + Z.of_nat (length (x :: stem)) =? 0)) with false.
  - unfold substring. rewrite Z.add_0_l, Nat2Z.id.
    now rewrite drop_app_length.
  - symmetry. apply orb_false_intro; apply Z.eqb_neq; simpl length; lia.
Qed.

(** X13. The extension of a file name is what follows its last full stop,
    the full stop included, when that full stop is not the first code unit
    of the name; a name without a full stop, and a name whose only full
    stop comes first, such as [.env], have the empty extension. *)
Theorem getExtension_cases :
  (forall s, ~ In dot s -> getExtension s = [])
  /\ (forall s, ~ In dot s -> getExtension (dot :: s) = [])
  /\ (forall stem ext, stem <> [] -> ~ In dot ext ->
        getExtension (stem ++ dot :: ext) = dot :: ext).
Proof.
  split; [exact getExtension_no_dot|].
  split; [exact getExtension_leading_dot | exact getExtension_last_dot].
Qed.

Lemma getExtension_cases_witness :
  getExtension (lit ".env") = []
  /\ getExtension (lit "notes.tar.gz") = lit ".gz".
Proof.
  destruct getExtension_cases as (_ & Hleading & Hlast).
  split.
  - apply (Hleading (lit "env")). vm_compute. intuition discriminate.
  - apply (Hlast (lit "notes.tar") (lit "gz")).
    + discriminate.
    + vm_compute. intuition discriminate.
Defined.

(** X14. Every file name is a stem followed by its extension; the
    extension is empty, or it starts with the only full stop it has and the
    stem is not empty; and an extension has itself the empty extension. *)
Theorem getExtension_is_a_suffix (filename : JSString) :
  exists stem,
    filename = stem ++ getExtension filename
    /\ (getExtension filename = []
        \/ exists ext, getExtension filename = dot :: ext
                       /\ ~ In dot ext /\ stem <> [])
    /\ getExtension (getExtension filename) = [].
Proof.
  destruct (last_occurrence dot filename) as [Hnot | (pre & t & -> & Ht)].
  - exists filename. rewrite (getExtension_no_dot filename Hnot).
    rewrite app_nil_r. repeat split; auto.
  - destruct pre as [|x pre].
    + exists (dot :: t). simpl app.
      rewrite (getExtension_leading_dot t Ht), app_nil_r.
      repeat split; auto.
    + exists (x :: pre).
      rewrite (getExtension_last_dot (x :: pre) t) by (discriminate || exact Ht).
      split; [reflexivity|]. split.
      * right. exists t. repeat split; [exact Ht | discriminate].
      * exact (getExtension_leading_dot t Ht).
Qed.

(** ** The MIME type of a file name *)

Lemma property_value (table : list (string * string)) (key v : JSString) :
  property table key = Some v -> In v (map (fun kv => lit kv.2) table).
Proof.
  unfold property.
  destruct (List.find (fun kv => bool_decide (lit kv.1 = key)) table)
    as [kv|] eqn:Hfind; [|discriminate].
  intros [= <-]. apply find_some in Hfind as [Hin _].
  apply in_map_iff. exists kv. split; [reflexivity | exact Hin].
Qed.

Lemma google_values (key v : JSString) :
  property GOOGLE_EXTENSIONS key = Some v ->
  isGoogleWorkspaceType v = true /\ truthy v = true.
Proof.
  intros Hv. apply property_value in Hv.
  assert (Hall : forallb (fun v => isGoogleWorkspaceType v && truthy v)
                   (map (fun kv => lit kv.2) GOOGLE_EXTENSIONS) = true)
    by (vm_compute; reflexivity).
  rewrite forallb_forall in Hall. specialize (Hall v Hv).
  now apply andb_prop in Hall.
Qed.

Lemma mime_values (key v : JSString) :
  property MIME_TYPES key = Some v ->
  isGoogleWorkspaceType v = false /\ truthy v = true.
Proof.
  intros Hv. apply property_value in Hv.
  assert (Hall : forallb (fun v => negb (isGoogleWorkspaceType v) && truthy v)
                   (map (fun kv => lit kv.2) MIME_TYPES) = true)
    by (vm_compute; reflexivity).
  rewrite forallb_forall in Hall. specialize (Hall v Hv).
  apply andb_prop in Hall as [Hg Ht]. split; [|exact Ht].
  now apply negb_true_iff in Hg.
Qed.

Section MimeTypeProperties.

Variable toLowerCase : JSString -> JSString.

(** X15. Whatever [toLowerCase] does, the MIME type of a file name is never
    empty, and it is a Google Workspace type exactly when the lower-cased
    extension of the name is a key of [GOOGLE_EXTENSIONS]; every other
    name, known to [MIME_TYPES] or not, gets a type that is not a Google
    Workspace type. *)
Theorem getMimeType_google_iff_google_extension (filename : JSString) :
  truthy (getMimeType toLowerCase filename) = true
  /\ (isGoogleWorkspaceType (getMimeType toLowerCase filename) = true
      <-> property GOOGLE_EXTENSIONS (toLowerCase (getExtension filename))
          <> None).
Proof.
  unfold getMimeType. cbv zeta.
  set (ext := toLowerCase (getExtension filename)).
  destruct (property GOOGLE_EXTENSIONS ext) as [g|] eqn:Hg.
  - destruct (google_values ext g Hg) as [Hgoogle Htruthy].
    unfold truthy_opt. simpl. rewrite Htruthy.
    split; [exact Htruthy|]. split; [discriminate | intros _; exact Hgoogle].
  - unfold truthy_opt at 1. simpl.
    destruct (property MIME_TYPES ext) as [m|] eqn:Hm.
    + destruct (mime_values ext m Hm) as [Hgoogle Htruthy].
      unfold truthy_opt. simpl. rewrite Htruthy.
      split; [exact Htruthy|]. rewrite Hgoogle. split; [discriminate | congruence].
    + unfold truthy_opt. simpl.
      split; [reflexivity|]. split; [discriminate | congruence].
Qed.

(** X16. When [toLowerCase] maps the empty string to itself, a file name
    with the empty extension gets ["application/octet-stream"]: so does
    every name without a full stop, and every name whose only full stop
    comes first, even [.env] and [.gdoc], whose extensions the tables
    know. *)
Theorem getMimeType_without_extension :
  toLowerCase [] = [] ->
  (forall filename, getExtension filename = [] ->
     getMimeType toLowerCase filename = lit "application/octet-stream")
  /\ (forall s, ~ In dot s ->
        getMimeType toLowerCase s = lit "application/octet-stream"
        /\ getMimeType toLowerCase (dot :: s)
           = lit "application/octet-stream").
Proof.
  intros Hempty.
  assert (Hnone : forall filename, getExtension filename = [] ->
            getMimeType toLowerCase filename = lit "application/octet-stream").
  { intros filename Hext. unfold getMimeType. rewrite Hext, Hempty.
    reflexivity. }
  split; [exact Hnone|].
  intros s Hnot. split; apply Hnone.
  - exact (getExtension_no_dot s Hnot).
  - exact (getExtension_leading_dot s Hnot).
Qed.

End MimeTypeProperties.

Lemma getMimeType_without_extension_witness :
  getMimeType asciiLower (lit ".env") = lit "application/octet-stream"
  /\ getMimeType asciiLower (lit "settings.env") = lit "text/plain"
  /\ getMimeType asciiLower (lit ".gdoc") = lit "application/octet-stream".
Proof.
  destruct (getMimeType_without_extension asciiLower eq_refl) as (_ & Hdot).
  split; [|split; [reflexivity|]].
  - apply (Hdot (lit "env")). vm_compute. intuition discriminate.
  - apply (Hdot (lit "gdoc")). vm_compute. intuition discriminate.
Defined.

(** * CSV rows *)

(** ** Code points and code units *)

Lemma rowStep_unit (st : RowState) (c : N) : rowStep st [c] = unitStep st c.
Proof.
  unfold rowStep, unitStep, quote.
  change (lit ",") with [44%N].
  destruct (N.eqb_spec c 34) as [->|Hq].
  - reflexivity.
  - rewrite bool_decide_eq_false_2 by congruence.
    destruct (N.eqb_spec c 44) as [->|Hc].
    + reflexivity.
    + rewrite bool_decide_eq_false_2 by congruence. reflexivity.
Qed.

Lemma unitStep_surrogate (st : RowState) (c : N) :
  is_high c || is_low c = true ->
  unitStep st c
  = mkRowState (row_values st) (row_current st ++ [c]) (row_inQuotes st).
Proof.
  intros Hs. unfold unitStep.
  assert (Hbig : (55296 <= c)%N).
  { unfold is_high, is_low in Hs.
    apply orb_prop in Hs as [Hs|Hs]; apply andb_prop in Hs as [Hs _];
      apply N.leb_le in Hs; lia. }
  destruct (N.eqb_spec c 34); [lia|].
  destruct (N.eqb_spec c 44); [lia|]. reflexivity.
Qed.

Lemma rowStep_pair (st : RowState) (c d : N) :
  is_high c = true -> is_low d = true ->
  rowStep st [c; d] = unitStep (unitStep st c) d.
Proof.
  intros Hc Hd.
  rewrite (unitStep_surrogate st c) by (rewrite Hc; reflexivity).
  rewrite unitStep_surrogate by (rewrite Hd; apply orb_true_r).
  unfold rowStep, quote. change (lit ",") with [44%N].
  rewrite !bool_decide_eq_false_2 by discriminate.
  simpl. now rewrite <- app_assoc.
Qed.

Lemma chars_units_two (s : JSString) :
  (forall st, fold_left rowStep (chars s) st = fold_left unitStep s st)
  /\ (forall c st,
        fold_left rowStep (chars (c :: s)) st
        = fold_left unitStep (c :: s) st).
Proof.
  induction s as [|x s [IH1 IH2]].
  - split; [reflexivity|]. intros c st. simpl. now rewrite rowStep_unit.
  - split; [intros st; apply IH2|].
    intros c st. cbn [chars].
    destruct (is_high c && is_low x) eqn:Hpair.
    + apply andb_prop in Hpair as [Hc Hx].
      cbn [fold_left]. rewrite (rowStep_pair st c x Hc Hx). apply IH1.
    + cbn [fold_left]. rewrite rowStep_unit. apply (IH2 x).
Qed.

Lemma parseRow_units (row : JSString) :
  parseRow row
  = row_values (fold_left unitStep row (mkRowState [] [] false))
    ++ [trim (row_current (fold_left unitStep row (mkRowState [] [] false)))].
Proof.
  unfold parseRow. cbv zeta.
  now rewrite (proj1 (chars_units_two row)).
Qed.

(** ** Rows and values *)

Lemma split_length (sep : N) (s : JSString) :
  length (split sep s) = S (count_occ N.eq_dec s sep).
Proof.
  induction s as [|c s IH]; [reflexivity|].
  cbn [split count_occ].
  destruct (N.eqb_spec c sep) as [->|Hne].
  - destruct (N.eq_dec sep sep); [|congruence]. simpl. now rewrite IH.
  - destruct (N.eq_dec c sep); [congruence|].
    destruct (split sep s) as [|h t]; [discriminate|]. exact IH.
Qed.

Lemma trimStart_incl (x : N) (s : JSString) : In x (trimStart s) -> In x s.
Proof.
  induction s as [|c s IH]; simpl; [tauto|].
  destruct (is_space c); [intros Hin; right; exact (IH Hin) | tauto].
Qed.

Lemma trim_incl (x : N) (s : JSString) : In x (trim s) -> In x s.
Proof.
  unfold trim, trimEnd. intros Hin.
  apply in_rev in Hin. apply trimStart_incl in Hin.
  apply in_rev in Hin. exact (trimStart_incl x s Hin).
Qed.

(** X17. The rows of CSV data are never none: there is one more row than
    line feeds in the data, so the empty data has one row; and every row
    has at least one value. Every value is trimmed, and no value holds a
    quotation mark. *)
Theorem csvRows_shape (csvData : JSString) :
  length (csvRows csvData) = S (count_occ N.eq_dec csvData 10%N)
  /\ Forall (fun row => row <> []) (csvRows csvData)
  /\ Forall (Forall (fun v => trimmed v /\ ~ In 34%N v)) (csvRows csvData)
  /\ csvRows [] = [[[]]].
Proof.
  unfold csvRows. split; [rewrite length_map; apply split_length|].
  split; [|split; [|reflexivity]].
  - apply List.Forall_forall. intros row Hin.
    apply in_map_iff in Hin as (r & <- & _).
    unfold parseRow. cbv zeta. intros Habs.
    now apply app_eq_nil in Habs as [_ Habs].
  - apply List.Forall_forall. intros row Hin.
    apply in_map_iff in Hin as (r & <- & _).
    rewrite parseRow_units.
    set (good := fun v : JSString => trimmed v /\ ~ In 34%N v).
    assert (Hinv : forall l st,
              Forall good (row_values st) -> ~ In 34%N (row_current st) ->
              Forall good (row_values (fold_left unitStep l st))
              /\ ~ In 34%N (row_current (fold_left unitStep l st))).
    { induction l as [|c l IH]; intros st Hv Hc; [split; assumption|].
      cbn [fold_left]. apply IH; unfold unitStep;
        destruct (N.eqb_spec c 34) as [->|Hq]; simpl; try assumption;
        destruct ((c =? 44)%N && negb (row_inQuotes st)); simpl;
        try assumption.
      - apply Forall_app. split; [exact Hv|].
        constructor; [|constructor].
        split; [apply trim_trimmed|].
        intros Hin'. apply Hc. exact (trim_incl _ _ Hin').
      - intros [].
      - intros Hin'. apply in_app_or in Hin' as [Hin'|[Heq|[]]];
          [exact (Hc Hin') | congruence]. }
    destruct (Hinv r (mkRowState [] [] false)) as [Hv Hc];
      [constructor | intros [] |].
    apply Forall_app. split; [exact Hv|].
    constructor; [|constructor].
    split; [apply trim_trimmed|].
    intros Hin'. apply Hc. exact (trim_incl _ _ Hin').
Qed.

(** ** Commas inside and outside quotation marks *)

Lemma split_nonempty (sep : N) (s : JSString) : split sep s <> [].
Proof.
  intros Habs. pose proof (split_length sep s) as Hlen.
  rewrite Habs in Hlen. discriminate.
Qed.

Lemma unquoted_fold (row : JSString) :
  ~ In 34%N row ->
  forall vs cur,
    row_values (fold_left unitStep row (mkRowState vs cur false))
    ++ [trim (row_current (fold_left unitStep row (mkRowState vs cur false)))]
    = vs ++ map trim match split 44 row with
                     | h :: t => (cur ++ h) :: t
                     | [] => [cur]
                     end.
Proof.
  induction row as [|c row IH]; intros Hnot vs cur.
  - simpl. now rewrite app_nil_r.
  - assert (Hc : c <> 34%N) by (intros ->; apply Hnot; now left).
    assert (Hrow : ~ In 34%N row) by (intros Hin; apply Hnot; now right).
    cbn [fold_left split]. unfold unitStep at 2 4.
    destruct (N.eqb_spec c 34); [congruence|].
    cbn [row_inQuotes row_values row_current negb].
    destruct (N.eqb_spec c 44) as [->|Hcomma]; cbn [andb].
    + rewrite (IH Hrow). pose proof (split_nonempty 44 row) as Hne.
      destruct (split 44 row) as [|h t]; [congruence|].
      simpl. rewrite app_nil_r, <- app_assoc. reflexivity.
    + rewrite (IH Hrow). pose proof (split_nonempty 44 row) as Hne.
      destruct (split 44 row) as [|h t]; [congruence|].
      rewrite <- app_assoc. reflexivity.
Qed.

Lemma quoted_fold (body : JSString) :
  ~ In 34%N body ->
  forall vs cur,
    fold_left unitStep body (mkRowState vs cur true)
    = mkRowState vs (cur ++ body) true.
Proof.
  induction body as [|c body IH]; intros Hnot vs cur.
  - simpl. now rewrite app_nil_r.
  - assert (Hc : c <> 34%N) by (intros ->; apply Hnot; now left).
    assert (Hbody : ~ In 34%N body) by (intros Hin; apply Hnot; now right).
    cbn [fold_left]. unfold unitStep at 2.
    destruct (N.eqb_spec c 34); [congruence|].
    cbn [row_inQuotes row_values row_current negb].
    rewrite andb_false_r, (IH Hbody), <- app_assoc. reflexivity.
Qed.

(** X18. A row without quotation marks is split at its commas and each
    piece is trimmed: it has one more value than commas. *)
Theorem parseRow_without_quotes (row : JSString) :
  ~ In 34%N row ->
  parseRow row = map trim (split 44 row)
  /\ length (parseRow row) = S (count_occ N.eq_dec row 44%N).
Proof.
  intros Hnot.
  assert (Hrow : parseRow row = map trim (split 44 row)).
  { rewrite parseRow_units, (unquoted_fold row Hnot [] []).
    pose proof (split_nonempty 44 row) as Hne.
    destruct (split 44 row) as [|h t]; [congruence | reflexivity]. }
  split; [exact Hrow|].
  rewrite Hrow, length_map. apply split_length.
Qed.

Lemma parseRow_without_quotes_witness :
  parseRow (lit "a, b ,c") = [lit "a"; lit "b"; lit "c"].
Proof.
  destruct (parseRow_without_quotes (lit "a, b ,c")) as (Hrow & _).
  - vm_compute. intuition discriminate.
  - rewrite Hrow. reflexivity.
Defined.

(** X19. A row that starts with a stretch between two quotation marks, and
    has no quotation mark after the closing one, keeps the commas of that
    stretch: the stretch, without the marks, is the start of the first
    value, and only what follows the closing mark is split at its commas.
    A row that is one such stretch has one value. *)
Theorem parseRow_quoted_commas (body rest : JSString) :
  ~ In 34%N body ->
  ~ In 34%N rest ->
  parseRow (34%N :: body ++ 34%N :: rest)
  = map trim match split 44 rest with
             | h :: t => (body ++ h) :: t
             | [] => [body]
             end
  /\ parseRow (34%N :: body ++ [34%N]) = [trim body].
Proof.
  intros Hbody Hrest.
  assert (Hgen : forall tail, ~ In 34%N tail ->
            parseRow (34%N :: body ++ 34%N :: tail)
            = map trim match split 44 tail with
                       | h :: t => (body ++ h) :: t
                       | [] => [body]
                       end).
  { intros tail Htail. rewrite parseRow_units.
    cbn [fold_left]. change (unitStep (mkRowState [] [] false) 34%N)
      with (mkRowState [] [] true).
    rewrite fold_left_app, (quoted_fold body Hbody). cbn [fold_left app].
    change (unitStep (mkRowState [] body true) 34%N)
      with (mkRowState [] body false).
    exact (unquoted_fold tail Htail [] body). }
  split; [exact (Hgen rest Hrest)|].
  rewrite (Hgen [] (fun H => H)). simpl. now rewrite app_nil_r.
Qed.

Lemma parseRow_quoted_commas_witness :
  parseRow (quote ++ lit "x, y" ++ quote ++ lit ",z")
  = [lit "x, y"; lit "z"].
Proof.
  destruct (parseRow_quoted_commas (lit "x, y") (lit ",z")) as (Hrow & _).
  - vm_compute. intuition discriminate.
  - vm_compute. intuition discriminate.
  - exact Hrow.
Defined.

(** * A heading without text *)

Section EmptyHeading.

Context {Remote : Type} `{DocsBackend Remote}.

(** X20. [addHeading] has no guard for an empty text, where [appendText]
    and [addBulletList] return at once on an empty input: on a document
    the read returns it submits a batch that inserts a lone line feed at
    the append insertion index and styles the range of length 1 that
    starts there. *)
Theorem addHeading_of_empty_text_is_submitted (id : JSString)
    (lvl : HeadingLevel) (w w1 : World Remote) (doc : Document) :
  getDocument id w = (inr doc, w1) ->
  let i := appendInsertionIndex doc in
  calls (addHeading id [] lvl w).2
  = calls w ++ [CallGet id;
                CallBatchUpdate id
                  [InsertText i nl;
                   UpdateParagraphStyle i (i + 1) lvl (lit "namedStyleType")]]
  /\ calls (appendText id [] w).2 = calls w.
Proof.
  intros Hget i. split; [|reflexivity].
  rewrite (addHeading_run id [] lvl w w1 doc Hget), submit_world. simpl.
  rewrite (getDocument_calls id w w1 _ Hget), <- app_assoc. reflexivity.
Qed.

End EmptyHeading.

Lemma addHeading_of_empty_text_is_submitted_witness :
  let w := InMemory.start Samples.store_hello in
  calls (addHeading Samples.id1 [] HEADING_2 w).2
  = [CallGet Samples.id1;
     CallBatchUpdate Samples.id1
       [InsertText 6 nl;
        UpdateParagraphStyle 6 7 HEADING_2 (lit "namedStyleType")]].
Proof.
  intros w.
  destruct (addHeading_of_empty_text_is_submitted Samples.id1 HEADING_2 w
              (getDocument Samples.id1 w).2
              (InMemory.render Samples.store_hello)) as (Hcalls & _).
  - reflexivity.
  - exact Hcalls.
Defined.

(** * Export formats *)

(** The four export formats have four different MIME types. *)
Lemma exportMimeType_injective (f g : ExportFormat) :
  exportMimeType f = exportMimeType g -> f = g.
Proof. destruct f, g; try reflexivity; intros Heq; vm_compute in Heq; discriminate. Qed.

(** * Uploading a file *)

Lemma table_values_look_like_mime_types (table : list (string * string))
    (key v : JSString) :
  forallb (fun v => isMimeType (Some v)) (map (fun kv => lit kv.2) table) = true ->
  property table key = Some v -> isMimeType (Some v) = true.
Proof.
  intros Hall Hv. apply property_value in Hv.
  rewrite forallb_forall in Hall. exact (Hall v Hv).
Qed.

Lemma getMimeType_looks_like_mime_type (toLowerCase : JSString -> JSString)
    (name : JSString) :
  isMimeType (Some (getMimeType toLowerCase name)) = true.
Proof.
  unfold getMimeType. cbv zeta.
  set (ext := toLowerCase (getExtension name)).
  destruct (property GOOGLE_EXTENSIONS ext) as [g|] eqn:Hg.
  - destruct (google_values ext g Hg) as [_ Htruthy].
    unfold truthy_opt at 1. cbn [from_option id]. rewrite Htruthy.
    cbn [from_option id].
    apply (table_values_look_like_mime_types GOOGLE_EXTENSIONS ext g);
      [vm_compute; reflexivity | exact Hg].
  - unfold truthy_opt at 1. cbn [from_option id truthy].
    destruct (property MIME_TYPES ext) as [m|] eqn:Hm.
    + destruct (mime_values ext m Hm) as [_ Htruthy].
      unfold truthy_opt at 1. cbn [from_option id]. rewrite Htruthy.
      cbn [from_option id].
      apply (table_values_look_like_mime_types MIME_TYPES ext m);
        [vm_compute; reflexivity | exact Hm].
    + vm_compute. reflexivity.
Qed.

Section Upload.

Context {Remote : Type} `{DocsBackend Remote} `{DriveBackend Remote}.

Variable toLowerCase : JSString -> JSString.

Lemma client_createFile_log (metadata : DriveFile) (media : option Media)
    (s : Session Remote) :
  driveCalls (client_createFile metadata media s).2
  = driveCalls s
      ++ [CallCreate metadata media
            (lit "id, name, mimeType, parents, webViewLink")].
Proof. now rewrite client_createFile_run. Qed.

Lemma createFile_log (name : JSString)
    (mimeTypeOrContent contentOrParentId parentId : option JSString)
    (s : Session Remote) :
  name <> [] ->
  driveCalls (createFile toLowerCase name mimeTypeOrContent contentOrParentId
                parentId s).2
  = driveCalls s
      ++ [if isMimeType mimeTypeOrContent
          then createRequest name (default [] mimeTypeOrContent)
                 contentOrParentId parentId
          else createRequest name (getMimeType toLowerCase name)
                 mimeTypeOrContent contentOrParentId].
Proof.
  intros Hname. destruct name as [|n name]; [congruence|].
  unfold createFile. change (negb (truthy (n :: name))) with false.
  cbv iota.
  assert (Hbranch : forall mimeType content finalParentId,
            driveCalls
              ((if isGoogleWorkspaceType mimeType
                then createGoogleWorkspaceFile (n :: name) mimeType content
                       finalParentId
                else
                  client_createFile
                    (mkDriveFile None (Some (n :: name)) (Some mimeType)
                       (parentsOf finalParentId))
                    (if truthy_opt content
                     then Some (mkMedia mimeType (default [] content))
                     else None)) s).2
            = driveCalls s
                ++ [createRequest (n :: name) mimeType content finalParentId]).
  { intros mimeType content finalParentId. unfold createRequest.
    destruct (isGoogleWorkspaceType mimeType).
    - unfold createGoogleWorkspaceFile. cbv zeta.
      apply client_createFile_log.
    - rewrite client_createFile_log.
      destruct content as [[|c text]|]; reflexivity. }
  destruct (isMimeType mimeTypeOrContent); cbv zeta; apply Hbranch.
Qed.

(** X21. [uploadFile] with an empty name fails with a [VALIDATION_ERROR]
    before any call. With a name, and no MIME type given or an empty one,
    it asks Drive once to create a file of the type detected from the
    name: of a Google Workspace type under the name without its Google
    extension and without media, so that the content is dropped; of any
    other type under the name as given, with the content as media when the
    content is not empty. This is so because every type [getMimeType]
    returns passes the test by which [createFile] tells a MIME type from a
    content. With a MIME type given that fails this test (no slash, a line
    feed, or 100 code units or more), the type is detected from the name
    again, the given type is taken for the content and the content for the
    parent. *)
Theorem uploadFile_requests (name content : JSString)
    (parentId explicitMimeType : option JSString) (s : Session Remote) :
  (name = [] ->
     uploadFile toLowerCase name content parentId explicitMimeType s
     = (inl (mkError (lit "File name is required") VALIDATION_ERROR), s))
  /\ (name <> [] ->
      truthy_opt explicitMimeType = false ->
      driveCalls
        (uploadFile toLowerCase name content parentId explicitMimeType s).2
      = driveCalls s
          ++ [createRequest name (getMimeType toLowerCase name)
                (Some content) parentId])
  /\ (forall explicit,
        name <> [] ->
        explicitMimeType = Some explicit ->
        explicit <> [] ->
        isMimeType (Some explicit) = false ->
        driveCalls
          (uploadFile toLowerCase name content parentId explicitMimeType s).2
        = driveCalls s
            ++ [createRequest name (getMimeType toLowerCase name)
                  (Some explicit) (Some content)]).
Proof.
  split; [intros ->; reflexivity|]. split.
  - intros Hname Hnone. unfold uploadFile. cbv zeta.
    assert (Hor : or_str explicitMimeType (getMimeType toLowerCase name)
                  = getMimeType toLowerCase name)
      by (destruct explicitMimeType as [[|c e]|]; try reflexivity;
          discriminate).
    rewrite Hor, (createFile_log _ _ _ _ _ Hname).
    now rewrite getMimeType_looks_like_mime_type.
  - intros explicit Hname -> Hne Hmime. unfold uploadFile. cbv zeta.
    destruct explicit as [|c e]; [congruence|]. cbn [or_str].
    rewrite (createFile_log _ _ _ _ _ Hname). now rewrite Hmime.
Qed.

End Upload.

Lemma uploadFile_requests_witness :
  let s := InMemoryDrive.start Samples.store_hello in
  let fields := lit "id, name, mimeType, parents, webViewLink" in
  driveCalls
    (uploadFile asciiLower (lit "a.txt") (lit "hello") (Some (lit "dir")) None s).2
  = [CallCreate
       (mkDriveFile None (Some (lit "a.txt")) (Some (lit "text/plain"))
          (Some [lit "dir"]))
       (Some (mkMedia (lit "text/plain") (lit "hello"))) fields]
  /\ driveCalls
       (uploadFile asciiLower (lit "Notes.GDoc") (lit "hello") None None s).2
     = [CallCreate
          (mkDriveFile None (Some (lit "Notes"))
             (Some (lit "application/vnd.google-apps.document")) None)
          None fields]
  /\ driveCalls
       (uploadFile asciiLower (lit "a.txt") (lit "hello") (Some (lit "dir"))
          (Some (lit "pdf")) s).2
     = [CallCreate
          (mkDriveFile None (Some (lit "a.txt")) (Some (lit "text/plain"))
             (Some [lit "hello"]))
          (Some (mkMedia (lit "text/plain") (lit "pdf"))) fields].
Proof.
  intros s fields.
  destruct (uploadFile_requests asciiLower (lit "a.txt") (lit "hello")
              (Some (lit "dir")) None s) as (_ & Hnone & _).
  destruct (uploadFile_requests asciiLower (lit "Notes.GDoc") (lit "hello")
              None None s) as (_ & Hgoogle & _).
  destruct (uploadFile_requests asciiLower (lit "a.txt") (lit "hello")
              (Some (lit "dir")) (Some (lit "pdf")) s) as (_ & _ & Hbad).
  split; [|split].
  - rewrite Hnone; [reflexivity | discriminate | reflexivity].
  - rewrite Hgoogle; [reflexivity | discriminate | reflexivity].
  - rewrite (Hbad (lit "pdf"));
      [reflexivity | discriminate | reflexivity | discriminate | reflexivity].
Defined.
